(** * Campaign synchronization and address helpers of the prediction-market
      front end: a shallow embedding and its verified properties.

    The TypeScript module under study wraps a ledger contract, a remote
    market endpoint, the browser's [localStorage] and a hosted record store.
    Pure helpers are embedded as Rocq functions; the asynchronous helpers
    are embedded in a state-and-exception monad over an explicit [World]
    (the mutable stores and the console) and an explicit description of how
    each awaited external call answers. *)

From Stdlib Require Import ZArith Lia Ascii String DecimalString PrimFloat.
From Corelib Require SpecFloat FloatOps.
From stdpp Require Import gmap list.

Local Open Scope Z_scope.

(** ** JavaScript strings

    A JavaScript string is a sequence of UTF-16 code units;
    [s.charCodeAt(i)] is the i-th unit, a number in [0, 65535], and
    [s.split('')] is the list of its one-unit strings. *)

Abbreviation jsstring := (list Z).

(** A literal of the source, written as a Rocq string literal. *)
Definition js (s : string) : jsstring :=
  map (fun a => Z.of_N (N_of_ascii a)) (list_ascii_of_string s).

(** [BigInt.prototype.toString()]: the decimal numeral, with a leading
    minus sign for negative values. *)
Definition bigint_toString (z : Z) : jsstring :=
  js (NilZero.string_of_int (Z.to_int z)).

(** [String.prototype.substring(start, end)] (ECMAScript 22.1.3.25): both
    bounds are clamped to [0, length], a missing [end] is the length, and
    the bounds are swapped when [start > end]. *)
Definition substring (s : jsstring) (start : Z) (end_ : option Z) : jsstring :=
  let len := Z.of_nat (length s) in
  let intEnd := match end_ with Some e => e | None => len end in
  let finalStart := Z.min (Z.max start 0) len in
  let finalEnd := Z.min (Z.max intEnd 0) len in
  let from := Z.min finalStart finalEnd in
  let to := Z.max finalStart finalEnd in
  take (Z.to_nat (to - from)) (drop (Z.to_nat from) s).

(** ** 32-bit integer operators of JavaScript

    The operands of [<<] and [&] are first converted with [ToInt32]; the
    result is again a signed 32-bit integer.  All the numbers that occur in
    the hash below are integers of magnitude below [2^53], which a JavaScript
    number represents exactly, so they are embedded as [Z]. *)

Definition ToInt32 (x : Z) : Z := (x + 2 ^ 31) mod 2 ^ 32 - 2 ^ 31.

Definition js_shl (x n : Z) : Z := ToInt32 (Z.shiftl (ToInt32 x) (n mod 32)).

Definition js_and (x y : Z) : Z := Z.land (ToInt32 x) (ToInt32 y).

(** [x % y] takes the sign of the dividend. *)
Definition js_rem (x y : Z) : Z := Z.rem x y.

(** ** JavaScript numbers

    A number is an IEEE 754 double.  This module gives the conversions
    between numbers and strings that the helpers use, computed on the exact
    value of the double: [Number::toString], [parseInt], [parseFloat],
    [Number.prototype.toFixed], [Math.floor] and [Math.trunc]. *)

Module Num.

Import SpecFloat FloatOps.

(** The decimal digits of a non-negative integer, most significant first. *)
Fixpoint digits_fuel (fuel : nat) (n : Z) (acc : jsstring) : jsstring :=
  match fuel with
  | O => acc
  | S fuel' =>
      let acc' := (48 + n mod 10) :: acc in
      if n <? 10 then acc' else digits_fuel fuel' (n / 10) acc'
  end.

Definition digits (n : Z) : jsstring :=
  digits_fuel (S (Z.to_nat (Z.log2 n))) n [].

(** The number nearest to the ratio [p / q] ([0 <= p], [0 < q]), ties to
    even, with the given sign; overflow gives an infinity. *)
Definition round_ratio (negative : bool) (p q : Z) : float :=
  match p with
  | Z0 => if negative then neg_zero else zero
  | _ =>
      let '(mz, ez, lz) := SFdiv_core_binary prec emax p 0 q 0 in
      SF2Prim (binary_round_aux prec emax negative mz ez lz)
  end.

(** The exact value [m * 2^e] of a finite number, as a ratio. *)
Definition ratio_of (m : positive) (e : Z) : Z * Z :=
  if 0 <=? e then (Zpos m * 2 ^ e, 1) else (Zpos m, 2 ^ (- e)).

(** [p / q * 10^n], as a ratio. *)
Definition scale10 (pq : Z * Z) (n : Z) : Z * Z :=
  let '(p, q) := pq in
  if 0 <=? n then (p * 10 ^ n, q) else (p, q * 10 ^ (- n)).

(** The [n] with [10^(n-1) <= p / q < 10^n]. *)
Fixpoint exponent_search (fuel : nat) (pq : Z * Z) (n : Z) : Z :=
  match fuel with
  | O => n
  | S fuel' =>
      let '(p, q) := scale10 pq (- n) in
      if p <? q then n else exponent_search fuel' pq (n + 1)
  end.

Definition decimal_exponent (pq : Z * Z) : Z :=
  let '(p, q) := pq in
  let estimate := ((Z.log2 p - Z.log2 q) * 30103) / 100000 in
  exponent_search 8 pq (estimate - 2).


(** The digits of the shortest decimal that reads back as [x] (a positive,
    finite number): [(s, n)] with [k] digits in [s], so that [x] prints as
    [s * 10^(n - k)]. *)
Definition reads_back (x : float) (s e : Z) : bool :=
  let '(p, q) := scale10 (s, 1) e in
  PrimFloat.eqb (round_ratio false p q) x.

(** The candidate with [k] digits closest to [pq], if it reads back. *)
Definition candidate (x : float) (pq : Z * Z) (n k : Z) : option (Z * Z) :=
  let '(p, q) := scale10 pq (k - n) in
  let lo := p / q in
  let hi := lo + 1 in
  let r := p mod q in
  (* lo is the closer one when 2r < q, hi when 2r > q, the even one on a tie *)
  let lo_first := (2 * r <? q) || ((2 * r =? q) && Z.even lo) in
  let ok_lo := (10 ^ (k - 1) <=? lo) && reads_back x lo (n - k) in
  let ok_hi := reads_back x hi (n - k) in
  let pick (s : Z) := if s =? 10 ^ k then (10 ^ (k - 1), n + 1) else (s, n) in
  if lo_first then
    if ok_lo then Some (pick lo) else if ok_hi then Some (pick hi) else None
  else
    if ok_hi then Some (pick hi) else if ok_lo then Some (pick lo) else None.

Fixpoint shortest_search (fuel : nat) (x : float) (pq : Z * Z) (n k : Z)
    : Z * Z * Z :=
  match fuel with
  | O => (0, n, k)
  | S fuel' =>
      match candidate x pq n k with
      | Some (s, n') => (s, n', k)
      | None => shortest_search fuel' x pq n (k + 1)
      end
  end.

Definition shortest_digits (x : float) (m : positive) (e : Z) : Z * Z * Z :=
  let pq := ratio_of m e in
  shortest_search 17 x pq (decimal_exponent pq) 1.

Definition zeros (n : Z) : jsstring := repeat 48 (Z.to_nat n).

(** [Number::toString(x)] in radix 10 (ECMAScript 6.1.6.1.20). *)
Definition toString_positive (x : float) (m : positive) (e : Z) : jsstring :=
  let '(s, n, k) := shortest_digits x m e in
  let ds := digits s in
  if (k <=? n) && (n <=? 21) then ds ++ zeros (n - k)
  else if (0 <? n) && (n <=? 21) then
    take (Z.to_nat n) ds ++ js "." ++ drop (Z.to_nat n) ds
  else if (-6 <? n) && (n <=? 0) then js "0." ++ zeros (- n) ++ ds
  else
    let exponent :=
      (if 0 <=? n - 1 then js "+" else js "-") ++ digits (Z.abs (n - 1)) in
    if k =? 1 then ds ++ js "e" ++ exponent
    else take 1 ds ++ js "." ++ drop 1 ds ++ js "e" ++ exponent.

Definition Number_toString (x : float) : jsstring :=
  match Prim2SF x with
  | S754_nan => js "NaN"
  | S754_zero _ => js "0"
  | S754_infinity s => if s then js "-Infinity" else js "Infinity"
  | S754_finite s m e =>
      (if s then js "-" else []) ++ toString_positive (abs x) m e
  end.

(** White space and line terminators, as skipped by [parseInt] and
    [parseFloat]. *)
Definition is_white_space (c : Z) : bool :=
  existsb (Z.eqb c)
    [9; 10; 11; 12; 13; 32; 160; 5760; 8232; 8233; 8239; 8287; 12288; 65279]
  || ((8192 <=? c) && (c <=? 8202)).

Fixpoint trim_start (s : jsstring) : jsstring :=
  match s with
  | c :: rest => if is_white_space c then trim_start rest else s
  | [] => []
  end.

Definition digit_value (radix c : Z) : option Z :=
  let v :=
    if (48 <=? c) && (c <=? 57) then c - 48
    else if (97 <=? c) && (c <=? 122) then c - 97 + 10
    else if (65 <=? c) && (c <=? 90) then c - 65 + 10
    else radix in
  if v <? radix then Some v else None.

(** The longest prefix of digits: its value, its length, and the rest. *)
Fixpoint read_digits (radix : Z) (s : jsstring) (acc : Z) (count : nat)
    : Z * nat * jsstring :=
  match s with
  | c :: rest =>
      match digit_value radix c with
      | Some v => read_digits radix rest (acc * radix + v) (S count)
      | None => (acc, count, s)
      end
  | [] => (acc, count, [])
  end.

Definition read_sign (s : jsstring) : bool * jsstring :=
  match s with
  | 45 :: rest => (true, rest)
  | 43 :: rest => (false, rest)
  | _ => (false, s)
  end.

(** [parseInt(string)] with no radix argument (ECMAScript 19.2.5). *)
Definition parseInt (input : jsstring) : float :=
  let '(negative, s) := read_sign (trim_start input) in
  let '(radix, s) :=
    match s with
    | 48 :: 120 :: rest | 48 :: 88 :: rest => (16, rest)
    | _ => (10, s)
    end in
  let '(value, count, _) := read_digits radix s 0 0 in
  match count with
  | O => nan
  | S _ => round_ratio negative value 1
  end.

Definition has_prefix (p s : jsstring) : bool :=
  bool_decide (take (length p) s = p).

(** [parseFloat(string)] (ECMAScript 19.2.4): the value of the longest
    prefix that is a decimal literal, rounded to the nearest number. *)
Definition parseFloat (input : jsstring) : float :=
  let '(negative, s) := read_sign (trim_start input) in
  if has_prefix (js "Infinity") s then
    if negative then neg_infinity else infinity
  else
    let '(whole, n_whole, s) := read_digits 10 s 0 0 in
    let '(mantissa, n_fraction, s) :=
      match s with
      | 46 :: rest =>
          let '(m, count, rest') := read_digits 10 rest whole 0 in
          (m, count, rest')
      | _ => (whole, O, s)
      end in
    match (n_whole + n_fraction)%nat with
    | O => nan
    | S _ =>
        let exponent :=
          match s with
          | 101 :: rest | 69 :: rest =>
              let '(exp_negative, rest') := read_sign rest in
              let '(e, count, _) := read_digits 10 rest' 0 0 in
              match count with
              | O => 0
              | S _ => if exp_negative then - e else e
              end
          | _ => 0
          end in
        let '(p, q) := scale10 (mantissa, 1) (exponent - Z.of_nat n_fraction) in
        round_ratio negative p q
    end.

(** [Number.prototype.toFixed(fractionDigits)] (ECMAScript 21.1.3.3), for
    [0 <= fractionDigits <= 100]; outside that range the method throws a
    [RangeError], which is [None] here. *)
Definition toFixed_digits (pq : Z * Z) (f : Z) : jsstring :=
  let '(p, q) := scale10 pq f in
  (* the integer n closest to p/q, the larger one on a tie *)
  let n := (2 * p + q) / (2 * q) in
  if f =? 0 then digits n
  else
    let m := digits n in
    let k := Z.of_nat (length m) in
    let m := if k <=? f then zeros (f + 1 - k) ++ m else m in
    let k := Z.of_nat (length m) in
    take (Z.to_nat (k - f)) m ++ js "." ++ drop (Z.to_nat (k - f)) m.

Definition Number_toFixed (x : float) (fractionDigits : Z) : option jsstring :=
  if (fractionDigits <? 0) || (100 <? fractionDigits) then None
  else
    Some match Prim2SF x with
         | S754_nan | S754_infinity _ => Number_toString x
         | S754_zero _ => toFixed_digits (0, 1) fractionDigits
         | S754_finite s m e =>
             let '(p, q) := ratio_of m e in
             (if s then js "-" else []) ++
             (if 10 ^ 21 * q <=? p then Number_toString (abs x)
              else toFixed_digits (p, q) fractionDigits)
         end.

(** The integer part of a finite number, and [Math.floor]. *)
Definition Math_floor (x : float) : float :=
  match Prim2SF x with
  | S754_finite s m e =>
      if 0 <=? e then x
      else
        let '(p, q) := ratio_of m e in
        if s then round_ratio true ((p + q - 1) / q) 1
        else round_ratio false (p / q) 1
  | _ => x
  end.

Definition Math_trunc (x : float) : float :=
  match Prim2SF x with
  | S754_finite s m e =>
      if 0 <=? e then x
      else let '(p, q) := ratio_of m e in round_ratio s (p / q) 1
  | _ => x
  end.

End Num.

Module Hash.

(** The callback of [reduce] in [mapMarketIdToCampaignId]:
    [a = ((a << 5) - a) + b.charCodeAt(0); return a & a]. *)
Definition step (a : Z) (b : Z) : Z :=
  let a' := (js_shl a 5 - a) + b in
  js_and a' a'.

Definition hashCode (marketId : jsstring) : Z := fold_left step marketId 0.

Definition mapMarketIdToCampaignId (marketId : jsstring) : Z :=
  Z.abs (js_rem (hashCode marketId) 1000).

(** The same hash in the words of the specification: the accumulator is
    [hash * 31 + charCode], collapsed to a signed 32-bit value at each
    character. *)
Definition rolling_hash (marketId : jsstring) : Z :=
  fold_left (fun hash charCode => ToInt32 (hash * 31 + charCode)) marketId 0.

End Hash.

(** ** Address utilities *)

Module Address.

(** Regular expressions, restricted to the constructs the source uses. *)
Inductive regex : Type :=
| RStart                                  (* ^ *)
| REnd                                    (* $ *)
| RChar (c : Z)                           (* a literal character *)
| RClass (ranges : list (Z * Z))          (* [a-fA-F0-9] *)
| RSeq (r1 r2 : regex)
| RRepeat (n : nat) (r : regex).          (* r{n} *)

Definition in_ranges (c : Z) (ranges : list (Z * Z)) : bool :=
  existsb (fun '(lo, hi) => (lo <=? c) && (c <=? hi)) ranges.

(** Backtracking matcher in continuation style: [matchk r i s k] matches
    [r] at index [i] of the subject, whose remaining input is [s], and hands
    the new index and remaining input to [k].  Without the [m] flag, [^]
    holds only at index 0 and [$] only at the end of the input. *)
Fixpoint matchk (r : regex) (i : nat) (s : jsstring)
    (k : nat -> jsstring -> bool) : bool :=
  match r with
  | RStart => Nat.eqb i 0 && k i s
  | REnd => match s with [] => k i s | _ :: _ => false end
  | RChar c =>
      match s with
      | x :: s' => (x =? c) && k (S i) s'
      | [] => false
      end
  | RClass ranges =>
      match s with
      | x :: s' => in_ranges x ranges && k (S i) s'
      | [] => false
      end
  | RSeq r1 r2 => matchk r1 i s (fun i' s' => matchk r2 i' s' k)
  | RRepeat n r1 =>
      (fix rep (n : nat) (i : nat) (s : jsstring) : bool :=
         match n with
         | O => k i s
         | S m => matchk r1 i s (fun i' s' => rep m i' s')
         end) n i s
  end.

(** [RegExp.prototype.test] for a regex without the [g] and [y] flags: a
    match is attempted at every start index, leftmost first. *)
Definition regex_test (r : regex) (s : jsstring) : bool :=
  existsb (fun p => matchk r p (drop p s) (fun _ _ => true))
          (seq 0 (S (length s))).

Definition chr (a : ascii) : Z := Z.of_N (N_of_ascii a).

(** [/^0x[a-fA-F0-9]{40}$/] *)
Definition address_regex : regex :=
  RSeq RStart
    (RSeq (RChar (chr "0"))
      (RSeq (RChar (chr "x"))
        (RSeq (RRepeat 40 (RClass [(chr "a", chr "f"); (chr "A", chr "F");
                                   (chr "0", chr "9")]))
              REnd))).

(** [isAddressValid]; [test] does not throw on a string, so the [catch]
    branch is never taken. *)
Definition isAddressValid (address : jsstring) : bool :=
  regex_test address_regex address.

(** [formatAddress]:
    [`${address.substring(0, 6)}...${address.substring(address.length - 4)}`].
    [substring] clamps its bounds and never throws, so the helper is a plain
    function of the string. *)
Definition formatAddress (address : jsstring) : jsstring :=
  substring address 0 (Some 6) ++ js "..." ++
  substring address (Z.of_nat (length address) - 4) None.

(** The address format in the words of the specification: the prefix [0x]
    followed by exactly 40 hexadecimal digits of either case. *)
Definition is_hex_digit (c : Z) : Prop :=
  chr "0" <= c <= chr "9" \/ chr "a" <= c <= chr "f" \/ chr "A" <= c <= chr "F".

Definition address_format (s : jsstring) : Prop :=
  exists digits, s = js "0x" ++ digits /\ length digits = 40%nat /\
                 Forall is_hex_digit digits.

End Address.

(** ** JavaScript values, errors and the effect monad *)

Set Warnings "-register-all,-inexact-float".

(** The values the helpers handle: parsed JSON, [undefined], and the strings
    read from [localStorage].  Numbers are IEEE 754 doubles. *)
Inductive jsval : Type :=
| JUndefined
| JNull
| JBool (b : bool)
| JNum (x : float)
| JStr (s : jsstring)
| JArr (items : list jsval)
| JObj (fields : list (jsstring * jsval)).

(** [ToBoolean]: what [if (v)] and [v || w] test. *)
Definition truthy (v : jsval) : bool :=
  match v with
  | JUndefined | JNull => false
  | JBool b => b
  | JNum x => negb (PrimFloat.eqb x 0 || PrimFloat.is_nan x)
  | JStr s => match s with [] => false | _ :: _ => true end
  | JArr _ | JObj _ => true
  end.

(** A thrown or rejected value is any value: [null] and [undefined]
    included.  An [Error] object is seen through its [message] property. *)
Definition JsError : Type := jsval.

(** [new Error(msg)] *)
Definition Error_ (msg : jsstring) : JsError := JObj [(js "message", JStr msg)].

Inductive Result (A : Type) : Type :=
| Ok (a : A)
| Throw (e : JsError).
Arguments Ok {A} a.
Arguments Throw {A} e.

(** Property read [v.key].  Reading a property of [null] or [undefined]
    throws a [TypeError]; a property an object does not have, and any
    non-index property of a primitive or an array, is [undefined]. *)
Fixpoint lookup_field (key : jsstring) (fields : list (jsstring * jsval)) : jsval :=
  match fields with
  | [] => JUndefined
  | (k, v) :: rest => if decide (k = key) then v else lookup_field key rest
  end.

Definition get_prop (v : jsval) (key : jsstring) : Result jsval :=
  match v with
  | JUndefined | JNull =>
      Throw (Error_ (js "Cannot read properties of null or undefined"))
  | JObj fields => Ok (lookup_field key fields)
  | _ => Ok JUndefined
  end.

(** [ToString(v)].  An array is its elements joined by commas, with [null]
    and [undefined] elements left empty.  A plain object is
    ["[object Object]"], through the [toString] it inherits; an object with
    a [toString] property of its own, which no value here can make callable,
    cannot be converted, and the conversion throws a [TypeError]. *)
Definition has_own (key : jsstring) (fields : list (jsstring * jsval)) : bool :=
  existsb (fun '(k, _) => bool_decide (k = key)) fields.

Fixpoint ToString (v : jsval) : Result jsstring :=
  match v with
  | JUndefined => Ok (js "undefined")
  | JNull => Ok (js "null")
  | JBool b => Ok (if b then js "true" else js "false")
  | JNum x => Ok (Num.Number_toString x)
  | JStr s => Ok s
  | JArr items =>
      (fix join (items : list jsval) : Result jsstring :=
         let element (v : jsval) : Result jsstring :=
           match v with
           | JUndefined | JNull => Ok []
           | _ => ToString v
           end in
         match items with
         | [] => Ok []
         | [v] => element v
         | v :: rest =>
             match element v with
             | Throw e => Throw e
             | Ok first =>
                 match join rest with
                 | Throw e => Throw e
                 | Ok others => Ok (first ++ js "," ++ others)
                 end
             end
         end) items
  | JObj fields =>
      if has_own (js "toString") fields
      then Throw (Error_ (js "Cannot convert object to primitive value"))
      else Ok (js "[object Object]")
  end.


(** Console output: the level and the arguments of the call. *)
Inductive Level : Type := LogLevel | WarnLevel | ErrorLevel.

Inductive LogArg : Type :=
| AStr (s : jsstring)
| ANum (x : float)
| AInt (z : Z)
| AErr (e : JsError).

Record LogEntry : Type := mkLog { level : Level; args : list LogArg }.

Inductive Side : Type := yes | no.

Definition side_string (p : Side) : jsstring :=
  match p with yes => js "yes" | no => js "no" end.

(** Rows of the two tables of the side store.  Only the columns this
    module reads or writes are kept. *)
Record MarketRow : Type := mkMarket {
  id : jsstring;
  yes_pool : float;
  no_pool : float
}.

Record PositionRow : Type := mkPosition {
  market_id : jsstring;
  user_wallet_address : option jsstring;   (* [getItem] may give [null] *)
  position_type : Side;
  amount : float
}.

(** Everything the helpers can change. *)
Record World : Type := mkWorld {
  localStorage : gmap jsstring jsstring;
  console : list LogEntry;
  prediction_markets : list MarketRow;
  user_positions : list PositionRow
}.

(** A computation runs in a world and either returns or throws. *)
Definition M (A : Type) : Type := World -> Result A * World.

#[global] Instance M_ret : MRet M := fun A a w => (Ok a, w).

#[global] Instance M_bind : MBind M := fun A B f m w =>
  match m w with
  | (Ok a, w') => f a w'
  | (Throw e, w') => (Throw e, w')
  end.

Definition throw {A : Type} (e : JsError) : M A := fun w => (Throw e, w).

(** [await] of a call whose answer is fixed by the environment. *)
Definition await {A : Type} (r : Result A) : M A := fun w => (r, w).

(** [try { body } catch (error) { handler }] *)
Definition try_catch {A : Type} (body : M A) (handler : JsError -> M A) : M A :=
  fun w =>
    match body w with
    | (Ok a, w') => (Ok a, w')
    | (Throw e, w') => handler e w'
    end.

Definition logged (w : World) (l : Level) (a : list LogArg) : World :=
  mkWorld (localStorage w) (console w ++ [mkLog l a])
          (prediction_markets w) (user_positions w).

Definition console_emit (l : Level) (a : list LogArg) : M unit := fun w =>
  (Ok tt, logged w l a).

Definition console_log := console_emit LogLevel.
Definition console_warn := console_emit WarnLevel.
Definition console_error := console_emit ErrorLevel.

(** [localStorage.getItem(key)]; [None] is [null]. *)
Definition localStorage_getItem (key : jsstring) : M (option jsstring) :=
  fun w => (Ok (localStorage w !! key), w).

(** ** The external collaborators

    An awaited call either resolves to a value or rejects; how each call
    answers is part of the input of the model. *)

(** The [Response] of [fetch]: the [ok] flag and what [json()] resolves to. *)
Record Response : Type := mkResponse { ok : bool; json : Result jsval }.

(** An ERC-20 contract instance: [balanceOf(account)] and [decimals()]. *)
Record TokenContract : Type := mkToken {
  balanceOf : jsstring -> Result Z;
  decimals : Result Z
}.

Inductive bytes32 : Type := keccak256 (utf8 : jsstring).

(** A decoded event argument and its [toString()]. *)
Inductive AbiValue : Type :=
| VUint (z : Z)
| VText (s : jsstring).

Definition abi_toString (v : AbiValue) : jsstring :=
  match v with
  | VUint z => bigint_toString z
  | VText s => s
  end.

(** What [contract.interface.parseLog] makes of a log entry: it throws,
    returns [null] (no event of the ABI has the entry's topic), or returns
    a description with the event's name and decoded arguments. *)
Record LogDescription : Type := mkDesc { name : jsstring; event_args : list AbiValue }.

Inductive Log : Type :=
| Undecodable (e : JsError)
| Foreign
| Decoded (d : LogDescription).

Definition parseLog (l : Log) : Result (option LogDescription) :=
  match l with
  | Undecodable e => Throw e
  | Foreign => Ok None
  | Decoded d => Ok (Some d)
  end.

Record Receipt : Type := mkReceipt { receipt_hash : jsstring; logs : list Log }.

Record Tx : Type := mkTx { tx_hash : jsstring; wait : Result Receipt }.

(** The prediction contract: [createCampaign(description, endTime, outcomes,
    tokenAddress, creatorFeeBP, { gasLimit })] and [numberOfCampaigns()]. *)
Record PredictionContract : Type := mkContract {
  createCampaign :
    jsstring -> float -> list bytes32 -> jsstring -> float -> float -> Result Tx;
  numberOfCampaigns : Result Z
}.

(** [new ethers.Contract(address, abi, signer)] for the two ABIs. *)
Record Signer : Type := mkSigner {
  erc20_at : jsstring -> Result TokenContract;
  prediction_at : jsstring -> Result PredictionContract
}.

Record Provider : Type := mkProvider { provider_getSigner : Result Signer }.

(** A request to the side store resolves normally, resolves with an
    [error] and no effect, or rejects. *)
Inductive Outcome : Type :=
| Succeeds
| Fails (e : JsError)
| Rejects (e : JsError).

Record Supabase : Type := mkSupabase {
  select_outcome : Outcome;
  update_outcome : Outcome;
  insert_outcome : Outcome
}.

Record Reply (A : Type) : Type := mkReply { data : option A; error : option JsError }.
Arguments mkReply {A} data error.
Arguments data {A} r.
Arguments error {A} r.

(** The object passed to [update]: the columns it sets. *)
Record PoolUpdate : Type := mkUpdate {
  set_yes_pool : option float;
  set_no_pool : option float
}.

Definition apply_update (u : PoolUpdate) (r : MarketRow) : MarketRow :=
  mkMarket (id r)
           (match set_yes_pool u with Some x => x | None => yes_pool r end)
           (match set_no_pool u with Some x => x | None => no_pool r end).

Definition rows_with_id (marketId : jsstring) (rows : list MarketRow) : list MarketRow :=
  filter (fun r => id r = marketId) rows.

Definition not_single_row : JsError :=
  Error_ (js "JSON object requested, multiple (or no) rows returned").

(** [from('prediction_markets').select('yes_pool, no_pool').eq('id', marketId).single()]:
    an error unless exactly one row has the id. *)
Definition select_single (sb : Supabase) (marketId : jsstring) : M (Reply MarketRow) :=
  fun w =>
    match select_outcome sb with
    | Rejects e => (Throw e, w)
    | Fails e => (Ok (mkReply None (Some e)), w)
    | Succeeds =>
        match rows_with_id marketId (prediction_markets w) with
        | [r] => (Ok (mkReply (Some r) None), w)
        | _ => (Ok (mkReply None (Some not_single_row)), w)
        end
    end.

(** [from('prediction_markets').update(updates).eq('id', marketId)] *)
Definition update_eq (sb : Supabase) (updates : PoolUpdate) (marketId : jsstring)
    : M (Reply unit) :=
  fun w =>
    match update_outcome sb with
    | Rejects e => (Throw e, w)
    | Fails e => (Ok (mkReply None (Some e)), w)
    | Succeeds =>
        (Ok (mkReply None None),
         mkWorld (localStorage w) (console w)
                 (map (fun r => if decide (id r = marketId)
                                then apply_update updates r else r)
                      (prediction_markets w))
                 (user_positions w))
    end.

(** [from('user_positions').insert(row)] *)
Definition insert_position (sb : Supabase) (row : PositionRow) : M (Reply unit) :=
  fun w =>
    match insert_outcome sb with
    | Rejects e => (Throw e, w)
    | Fails e => (Ok (mkReply None (Some e)), w)
    | Succeeds =>
        (Ok (mkReply None None),
         mkWorld (localStorage w) (console w) (prediction_markets w)
                 (user_positions w ++ [row]))
    end.

(** ** The helpers of the module *)

Definition PREDICTION_CONTRACT_ADDRESS : jsstring :=
  js "0x42a2F4e5389F6e7466D97408724Dba38812f184E".
Definition LEO_TOKEN_ADDRESS : jsstring :=
  js "0xA1F002bf7cAD148a639418D77b93912871901875".
Definition DEFAULT_TOKEN_ADDRESS : jsstring := LEO_TOKEN_ADDRESS.


Definition getPredictionContract (signer : Signer) : Result PredictionContract :=
  prediction_at signer PREDICTION_CONTRACT_ADDRESS.

Section TokenBalance.

(** [ethers.formatUnits], a function of the ethers library, is taken as
    given; it may throw on its arguments. *)
Variable formatUnits : Z -> Z -> Result jsstring.


End TokenBalance.

(** [`/api/markets/${marketId}`] and [`market_${marketId}_onchain_id`] *)
Definition market_url (marketId : jsstring) : jsstring :=
  js "/api/markets/" ++ marketId.

Definition cache_key (marketId : jsstring) : jsstring :=
  js "market_" ++ marketId ++ js "_onchain_id".

(** [getOnChainCampaignId]; [fetch] tells how the request to
    [/api/markets/<marketId>] answers.  The [provider] argument is unused. *)
Definition getOnChainCampaignId (fetch : jsstring -> Result Response)
    (marketId : jsstring) (provider : option Provider) : M jsval :=
  let fallback : M jsval :=
    storedId ← localStorage_getItem (cache_key marketId);
    match storedId with
    | Some storedId => if truthy (JStr storedId) then mret (JStr storedId) else mret JNull
    | None => mret JNull
    end in
  try_catch
    (response ← await (fetch (market_url marketId));
     if ok response then
       data ← await (json response);
       on_chain_id ← await (get_prop data (js "on_chain_id"));
       if truthy on_chain_id then mret on_chain_id else fallback
     else fallback)
    (fun error =>
       console_error [AStr (js "Error getting on-chain campaign ID:"); AErr error];;
       mret JNull).

(** [new Date(t)] clips [t] to a time value: not a number when [t] is not
    finite or beyond 8.64e15 milliseconds from the epoch, and [t] truncated
    to an integer otherwise; [toISOString()] throws a [RangeError] on a date
    whose time value is not a number.  The text of the date is not
    modelled: the time value stands for it. *)
Definition Date_toISOString (t : float) : Result float :=
  if (abs t <=? 8640000000000000)%float then Ok (Num.Math_trunc t + 0)%float
  else Throw (Error_ (js "Invalid time value")).

Definition parse_or_null (l : Log) : option LogDescription :=
  match parseLog l with
  | Ok d => d
  | Throw _ => None
  end.

Definition is_campaign_created (l : option LogDescription) : bool :=
  match l with
  | Some d => bool_decide (name d = js "CampaignCreated")
  | None => false
  end.

(** The inner [try] of [createCampaignOnChain]: [Some id] when it returns
    the identifier read from the logs, [None] when control falls out of it. *)
Definition campaign_id_from_logs (receipt : Receipt) : M (option jsstring) :=
  try_catch
    (let campaignCreatedLog :=
       List.find is_campaign_created (map parse_or_null (logs receipt)) in
     match campaignCreatedLog with
     | Some (Some d) =>
         arg0 ← match event_args d with
                | v :: _ => mret v
                | [] => throw (Error_ (js "Cannot read properties of undefined"))
                end;
         let campaignId := abi_toString arg0 in
         console_log [AStr (js "Campaign created with ID (from logs):"); AStr campaignId];;
         mret (Some campaignId)
     | _ => mret None
     end)
    (fun error =>
       console_warn [AStr (js "Could not parse campaign ID from logs, falling back to alternative method")];;
       mret None).

Definition generic_failure : jsstring := js "Failed to create campaign on-chain".

(** [createCampaignOnChain]; [Date_now] is the value of [Date.now()]. *)
Definition createCampaignOnChain (Date_now : float) (signer : Signer)
    (description : jsstring) (expiryHours : float) (gasLimit : option float)
    : M jsstring :=
  let gasLimit := match gasLimit with Some g => g | None => 500000%float end in
  try_catch
    (contract ← await (getPredictionContract signer);
     let now := Num.Math_floor (Date_now / 1000)%float in
     let endTime :=
       (now + Num.parseInt (Num.Number_toString expiryHours) * 60 * 60)%float in
     let outcomes := [keccak256 (js "Yes"); keccak256 (js "No")] in
     let tokenAddress := DEFAULT_TOKEN_ADDRESS in
     let feeBP := 200%float in
     console_log [AStr (js "Creating campaign on-chain...")];;
     console_log [AStr (js "Description:"); AStr description];;
     iso ← await (Date_toISOString (endTime * 1000)%float);
     console_log [AStr (js "End time:"); ANum iso];;
     tx ← await (createCampaign contract description endTime outcomes
                                tokenAddress feeBP gasLimit);
     console_log [AStr (js "Transaction sent:"); AStr (tx_hash tx)];;
     receipt ← await (wait tx);
     console_log [AStr (js "Transaction confirmed:"); AStr (receipt_hash receipt)];;
     fromLogs ← campaign_id_from_logs receipt;
     match fromLogs with
     | Some campaignId => mret campaignId
     | None =>
         totalCampaigns ← await (numberOfCampaigns contract);
         let campaignId := bigint_toString (totalCampaigns - 1) in
         console_log [AStr (js "Campaign created with ID (via length):"); AStr campaignId];;
         mret campaignId
     end)
    (fun error =>
       console_error [AStr (js "Error creating campaign on-chain:"); AErr error];;
       message ← await (get_prop error (js "message"));
       text ← (if truthy message then await (ToString message)
               else mret generic_failure);
       throw (Error_ text)).

(** [Number(x)] of a number is the number. *)
Definition Number (x : float) : float := x.

(** [updateMarketPools] *)
Definition updateMarketPools (supabase : Supabase) (marketId : jsstring)
    (position : Side) (amount : float) : M unit :=
  try_catch
    (fetched ← select_single supabase marketId;
     match error fetched with
     | Some fetchError =>
         console_error [AStr (js "Error fetching market data:"); AErr fetchError]
     | None =>
         market ← match data fetched with
                  | Some market => mret market
                  | None => throw (Error_ (js "Cannot read properties of null"))
                  end;
         let updates :=
           match position with
           | yes => mkUpdate (Some (Number (yes_pool market) + amount)%float) None
           | no => mkUpdate None (Some (Number (no_pool market) + amount)%float)
           end in
         updated ← update_eq supabase updates marketId;
         match error updated with
         | Some updateError =>
             console_error [AStr (js "Error updating market pools:"); AErr updateError]
         | None =>
             console_log [AStr (js "Successfully updated "); AStr (side_string position);
                          AStr (js " pool for market "); AStr marketId;
                          AStr (js " with "); ANum amount; AStr (js " LEO")];;
             walletAddress ← localStorage_getItem (js "walletAddress");
             inserted ← insert_position supabase
                          (mkPosition marketId walletAddress position amount);
             match error inserted with
             | Some positionError =>
                 console_error [AStr (js "Error recording user position:"); AErr positionError]
             | None => mret tt
             end
         end
     end)
    (fun error =>
       console_error [AStr (js "Error updating market pools:"); AErr error]).

(** ** Vocabulary of the statements *)

(** The remote query fails: the request rejects (network failure) or the
    response is not OK. *)
Definition remote_fails (fetch : jsstring -> Result Response)
    (marketId : jsstring) : Prop :=
  (exists e, fetch (market_url marketId) = Throw e) \/
  (exists r, fetch (market_url marketId) = Ok r /\ ok r = false).

(** The remote store holds the identifier [v]: the response is OK and its
    body is an object whose [on_chain_id] is the non-empty (truthy) [v]. *)
Definition remote_holds (fetch : jsstring -> Result Response)
    (marketId : jsstring) (v : jsval) : Prop :=
  exists r body, fetch (market_url marketId) = Ok r /\ ok r = true /\
    json r = Ok body /\ get_prop body (js "on_chain_id") = Ok v /\
    truthy v = true.

(** A network that is down, and a browser whose cache knows market [m1]
    under the identifier 7. *)
Definition fetch_unreachable : jsstring -> Result Response :=
  fun _ => Throw (Error_ (js "Failed to fetch")).

Definition fetch_not_found : jsstring -> Result Response :=
  fun _ => Ok (mkResponse false (Ok (JObj []))).

Definition fetch_42 : jsstring -> Result Response :=
  fun _ => Ok (mkResponse true (Ok (JObj [(js "on_chain_id", JStr (js "42"))]))).

Definition world_cached_7 : World :=
  mkWorld {[ cache_key (js "m1") := js "7" ]} [] [] [].








Definition empty_world : World := mkWorld ∅ [] [] [].

(** The first entry of the confirmation's logs that decodes to a
    [CampaignCreated] event, and the identifier read from it: its first
    argument as a string. *)
Fixpoint first_campaign_created (ls : list Log) : option LogDescription :=
  match ls with
  | [] => None
  | Decoded d :: rest =>
      if decide (name d = js "CampaignCreated") then Some d
      else first_campaign_created rest
  | _ :: rest => first_campaign_created rest
  end.

Definition logged_campaign_id (ls : list Log) : option jsstring :=
  match first_campaign_created ls with
  | Some d =>
      match event_args d with
      | v :: _ => Some (abi_toString v)
      | [] => None
      end
  | None => None
  end.

Definition end_time (Date_now expiryHours : float) : float :=
  (Num.Math_floor (Date_now / 1000) +
   Num.parseInt (Num.Number_toString expiryHours) * 60 * 60)%float.

Definition gas_limit (gasLimit : option float) : float :=
  match gasLimit with Some g => g | None => 500000%float end.

(** The creation request as the writer submits it. *)
Definition submit (contract : PredictionContract) (Date_now : float)
    (description : jsstring) (expiryHours : float) (gasLimit : option float)
    : Result Tx :=
  createCampaign contract description (end_time Date_now expiryHours)
    [keccak256 (js "Yes"); keccak256 (js "No")] DEFAULT_TOKEN_ADDRESS 200%float
    (gas_limit gasLimit).

(** The submission succeeded and was confirmed with [receipt]. *)
Definition confirmed_submission (Date_now : float) (signer : Signer)
    (description : jsstring) (expiryHours : float) (gasLimit : option float)
    (contract : PredictionContract) (receipt : Receipt) : Prop :=
  getPredictionContract signer = Ok contract /\
  (exists iso,
     Date_toISOString (end_time Date_now expiryHours * 1000)%float = Ok iso) /\
  exists tx, submit contract Date_now description expiryHours gasLimit = Ok tx /\
             wait tx = Ok receipt.



(** What the [catch] block of the writer throws when it caught [error]:
    [new Error(error.message || "Failed to create campaign on-chain")], or
    the [TypeError] of reading [message] on [null] or [undefined], or of a
    message that cannot be converted to a string. *)
Definition rethrown (error : JsError) : JsError :=
  match get_prop error (js "message") with
  | Ok message =>
      if truthy message then
        match ToString message with
        | Ok text => Error_ text
        | Throw e => e
        end
      else Error_ generic_failure
  | Throw e => e
  end.

(** What the writer returns or throws, as a function of how the ledger
    answers. *)
Definition creation_outcome (Date_now : float) (signer : Signer)
    (description : jsstring) (expiryHours : float) (gasLimit : option float)
    : Result jsstring :=
  match getPredictionContract signer with
  | Throw e => Throw (rethrown e)
  | Ok c =>
      match Date_toISOString (end_time Date_now expiryHours * 1000)%float with
      | Throw e => Throw (rethrown e)
      | Ok _ =>
          match submit c Date_now description expiryHours gasLimit with
          | Throw e => Throw (rethrown e)
          | Ok tx =>
              match wait tx with
              | Throw e => Throw (rethrown e)
              | Ok receipt =>
                  match logged_campaign_id (logs receipt) with
                  | Some campaignId => Ok campaignId
                  | None =>
                      match numberOfCampaigns c with
                      | Throw e => Throw (rethrown e)
                      | Ok total => Ok (bigint_toString (total - 1))
                      end
                  end
              end
          end
      end
  end.

(** A market row credited with [amount] on one side. *)
Definition credit (position : Side) (amount : float) (r : MarketRow) : MarketRow :=
  match position with
  | yes => mkMarket (id r) (yes_pool r + amount)%float (no_pool r)
  | no => mkMarket (id r) (yes_pool r) (no_pool r + amount)%float
  end.

(** The table after the market's row was credited. *)
Definition credited_table (marketId : jsstring) (position : Side) (amount : float)
    (rows : list MarketRow) : list MarketRow :=
  map (fun r => if decide (id r = marketId) then credit position amount r else r) rows.

(** The pool read fails: the request fails, or the table does not hold
    exactly one row for the market. *)
Definition read_fails (sb : Supabase) (marketId : jsstring) (w : World) : Prop :=
  select_outcome sb <> Succeeds \/
  forall row, rows_with_id marketId (prediction_markets w) <> [row].

(** The last console entry is an error report. *)
Definition error_logged (w : World) : Prop :=
  exists a, last (console w) = Some (mkLog ErrorLevel a).

Definition store_up : Supabase := mkSupabase Succeeds Succeeds Succeeds.

Definition store_insert_down : Supabase :=
  mkSupabase Succeeds Succeeds (Fails (Error_ (js "permission denied"))).

Definition store_read_down : Supabase :=
  mkSupabase (Rejects (Error_ (js "Failed to fetch"))) Succeeds Succeeds.

Definition world_market_10 : World :=
  mkWorld {[ js "walletAddress" := js "0xabc" ]} []
          [mkMarket (js "m2") 1 2; mkMarket (js "m1") 10 4] [].

(** Ledgers for the examples: one whose confirmation carries the event
    [CampaignCreated(5, ...)] after a foreign entry, one whose confirmation
    carries no such event while nine campaigns exist, and two that refuse
    the submission, with and without a message. *)
Definition receipt_with_event : Receipt :=
  mkReceipt (js "0xr1")
    [Foreign;
     Decoded (mkDesc (js "CampaignCreated")
                [VUint 5; VText (js "0xcreator"); VText (js "BTC"); VUint 1700086400])].

Definition receipt_without_event : Receipt :=
  mkReceipt (js "0xr2") [Foreign; Decoded (mkDesc (js "Transfer") [VUint 1])].

Definition ledger (submitted : Result Tx) (count : Result Z) : Signer :=
  mkSigner (fun _ => Throw (Error_ (js "not a token")))
           (fun _ => Ok (mkContract (fun _ _ _ _ _ _ => submitted) count)).

Definition contract_of (submitted : Result Tx) (count : Result Z) : PredictionContract :=
  mkContract (fun _ _ _ _ _ _ => submitted) count.

Definition tx_with_event : Tx := mkTx (js "0xt1") (Ok receipt_with_event).
Definition tx_without_event : Tx := mkTx (js "0xt2") (Ok receipt_without_event).

(** [formatUnits(value, decimals)] as ethers (version 6) computes it for an
    integer value and a number of decimals: it throws for more than 80
    decimals or a value beyond 512 bits; without decimals the result is the
    integer; otherwise it is the whole part, a point, and the [decimals]
    fractional digits with their trailing zeros removed but for one. *)
Fixpoint trim_zeros (reversed : jsstring) : jsstring :=
  match reversed with
  | 48 :: (_ :: _) as rest => trim_zeros rest
  | _ => reversed
  end.

Definition ethers_formatUnits (value decimals : Z) : Result jsstring :=
  if (decimals <? 0) || (80 <? decimals) then
    Throw (Error_ (js "invalid FixedNumber decimals (too large)"))
  else if 2 ^ 511 <=? Z.abs value then Throw (Error_ (js "overflow"))
  else
    let sign := if value <? 0 then js "-" else [] in
    if decimals =? 0 then Ok (sign ++ Num.digits (Z.abs value))
    else
      let whole := Num.digits (Z.abs value / 10 ^ decimals) in
      let fraction := Num.digits (Z.abs value mod 10 ^ decimals) in
      let padded :=
        Num.zeros (decimals - Z.of_nat (length fraction)) ++ fraction in
      Ok (sign ++ whole ++ js "." ++ rev (trim_zeros (rev padded))).







(** ** The remaining helpers of the module *)

Module Chain.

(** [checkSupportedChain]: [!chainId] holds for [null] and for the empty
    string; otherwise [supportedChains.includes(chainId)]. *)
Definition supportedChains : list jsstring :=
  [js "0x1"; js "0x5"; js "0x89"; js "0xa86a"; js "0x13881"; js "0xa869"].

Definition checkSupportedChain (chainId : option jsstring) : bool :=
  match chainId with
  | None => false
  | Some c =>
      if negb (truthy (JStr c)) then false
      else bool_decide (c ∈ supportedChains)
  end.

Record ChainDetails : Type := mkChain { chain_name : jsstring; explorer : jsstring }.

(** The object literal [chains] of [getChainDetails]: its own properties. *)
Definition chains : list (jsstring * ChainDetails) :=
  [(js "0x1", mkChain (js "Ethereum Mainnet") (js "https://etherscan.io"));
   (js "0x5", mkChain (js "Goerli Testnet") (js "https://goerli.etherscan.io"));
   (js "0x89", mkChain (js "Polygon") (js "https://polygonscan.com"));
   (js "0xa86a", mkChain (js "Avalanche") (js "https://snowtrace.io"));
   (js "0x13881", mkChain (js "Mumbai Testnet") (js "https://mumbai.polygonscan.com"));
   (js "0xa869", mkChain (js "Avalanche Fuji") (js "https://testnet.snowtrace.io"))].

Definition unknown_network : ChainDetails := mkChain (js "Unknown Network") [].

(** An object literal inherits from [Object.prototype]; [chains[key]] finds
    the inherited property when [key] is one of these names. *)
Definition Object_prototype_keys : list jsstring :=
  [js "constructor"; js "hasOwnProperty"; js "isPrototypeOf";
   js "propertyIsEnumerable"; js "toLocaleString"; js "toString"; js "valueOf";
   js "__proto__"; js "__defineGetter__"; js "__defineSetter__";
   js "__lookupGetter__"; js "__lookupSetter__"].

(** What [getChainDetails] returns: a details object, or the (truthy)
    property of [Object.prototype] found under the key. *)
Inductive ChainLookup : Type :=
| Details (d : ChainDetails)
| Inherited (key : jsstring).

Fixpoint own_property (key : jsstring) (table : list (jsstring * ChainDetails))
    : option ChainDetails :=
  match table with
  | [] => None
  | (k, d) :: rest => if decide (k = key) then Some d else own_property key rest
  end.

(** [getChainDetails]: [chains[chainId] || { name: 'Unknown Network', explorer: '' }] *)
Definition getChainDetails (chainId : option jsstring) : ChainLookup :=
  match chainId with
  | None => Details unknown_network
  | Some c =>
      if negb (truthy (JStr c)) then Details unknown_network
      else
        match own_property c chains with
        | Some d => Details d
        | None =>
            if bool_decide (c ∈ Object_prototype_keys) then Inherited c
            else Details unknown_network
        end
  end.

End Chain.

(** The side of a [BrowserProvider] that name resolution uses:
    [getNetwork()], seen through the [chainId] of the network it resolves
    to, and [lookupAddress(address)], which resolves to a name or [null]. *)
Record NameProvider : Type := mkNameProvider {
  getNetwork : Result Z;
  lookupAddress : jsstring -> Result (option jsstring)
}.

(** [resolveNameOrFormatAddress]; the innermost [try] returns the ENS name
    from the function ([Some]) or falls out of it ([None]). *)
Definition resolveNameOrFormatAddress (address : jsstring)
    (provider : option NameProvider) : M jsstring :=
  try_catch
    (resolved ←
       match provider with
       | Some provider =>
           try_catch
             (chainId ← await (getNetwork provider);
              if (chainId =? 1) || (chainId =? 5) then
                try_catch
                  (ensName ← await (lookupAddress provider address);
                   match ensName with
                   | Some ensName =>
                       if truthy (JStr ensName) then mret (Some ensName)
                       else mret None
                   | None => mret None
                   end)
                  (fun error =>
                     console_log [AStr (js "ENS lookup failed, using formatted address")];;
                     mret None)
              else
                console_log [AStr (js "Not on Ethereum mainnet or Goerli, skipping ENS resolution")];;
                mret None)
             (fun error =>
                console_log [AStr (js "Error getting network info:"); AErr error];;
                mret None)
       | None => mret None
       end;
     match resolved with
     | Some ensName => mret ensName
     | None => mret (Address.formatAddress address)
     end)
    (fun error =>
       console_error [AStr (js "Error resolving name:"); AErr error];;
       mret (Address.formatAddress address)).

(** [getOnChainIdFromSupabase]; [sessionStorage] is the session store, or
    the error that access to it raises. *)
Definition getOnChainIdFromSupabase
    (sessionStorage : Result (gmap jsstring jsstring)) (marketId : jsstring)
    : M (option jsstring) :=
  try_catch
    (store ← await sessionStorage;
     let onChainId := store !! cache_key marketId in
     mret onChainId)
    (fun error =>
       console_error [AStr (js "Error fetching on-chain ID:"); AErr error];;
       mret None).

(** ** Vocabulary of the further statements *)

(** A run changed nothing but the console, which only grew. *)
Definition console_only (w w' : World) : Prop :=
  localStorage w' = localStorage w /\
  prediction_markets w' = prediction_markets w /\
  user_positions w' = user_positions w /\
  exists entries, console w' = console w ++ entries.

(** A computation that changes nothing but the console. *)
Definition quiet {A : Type} (m : M A) : Prop :=
  forall w, console_only w (snd (m w)).

(** The log entry is not a decodable [CampaignCreated] event. *)
Definition irrelevant_log (l : Log) : Prop :=
  match l with
  | Decoded d => name d <> js "CampaignCreated"
  | _ => True
  end.

(** The value the resolver settles on, as a function of the remote answer
    and of the cache. *)
Definition cached_value (store : gmap jsstring jsstring) (marketId : jsstring) : jsval :=
  match store !! cache_key marketId with
  | Some (c :: s) => JStr (c :: s)
  | _ => JNull
  end.

Definition resolved_value (fetch : jsstring -> Result Response)
    (store : gmap jsstring jsstring) (marketId : jsstring) : jsval :=
  match fetch (market_url marketId) with
  | Throw _ => JNull
  | Ok r =>
      if ok r then
        match json r with
        | Throw _ => JNull
        | Ok body =>
            match get_prop body (js "on_chain_id") with
            | Throw _ => JNull
            | Ok v => if truthy v then v else cached_value store marketId
            end
        end
      else cached_value store marketId
  end.

(** The ENS name [resolveNameOrFormatAddress] settles on, if any: a
    non-empty name looked up on Ethereum mainnet (chain 1) or Goerli (5). *)
Definition resolved_name (address : jsstring) (provider : option NameProvider)
    : option jsstring :=
  match provider with
  | Some p =>
      match getNetwork p with
      | Ok c =>
          if (c =? 1) || (c =? 5) then
            match lookupAddress p address with
            | Ok (Some (x :: n)) => Some (x :: n)
            | _ => None
            end
          else None
      | Throw _ => None
      end
  | None => None
  end.

Example hash_abc : Hash.mapMarketIdToCampaignId (js "abc") = 354.
Proof. reflexivity. Qed.

Example toString_neg : bigint_toString (-1) = js "-1".
Proof. reflexivity. Qed.

Example format_short : Address.formatAddress (js "0x12") = js "0x12...0x12".
Proof. reflexivity. Qed.

Example valid_leo :
  Address.isAddressValid (js "0xA1F002bf7cAD148a639418D77b93912871901875") = true.
Proof. vm_compute. reflexivity. Qed.

Example toString_numbers :
  map Num.Number_toString
    [24; 1.5; 0.000001; 0.0000001; 100000000000000000000; 1e21; 1.5e300;
     nan; neg_infinity; (-0.25)]%float =
  [js "24"; js "1.5"; js "0.000001"; js "1e-7"; js "100000000000000000000";
   js "1e+21"; js "1.5e+300"; js "NaN"; js "-Infinity"; js "-0.25"].
Proof. vm_compute. reflexivity. Qed.

Example parseInt_of_toString :
  map (fun x => Num.parseInt (Num.Number_toString x))
    [24; 2.75; 1e21; 0.0000005]%float = [24; 2; 1; 5]%float.
Proof. vm_compute. reflexivity. Qed.

Example parseFloat_texts :
  map Num.parseFloat
    [js "1.5"; js "  42px"; js "1000000000000000000000.0"; js ".5e1"; js "-7."]
  = [1.5; 42; 1e21; 5; (-7)]%float.
Proof. vm_compute. reflexivity. Qed.

Example toFixed_numbers :
  map (fun x => Num.Number_toFixed x 2)
    [1.5; 0.125; 1.005; 0; (-0.001); 999999999999999900000; 1e21]%float =
  map Some [js "1.50"; js "0.13"; js "1.00"; js "0.00"; js "-0.00";
            js "999999999999999868928.00"; js "1e+21"].
Proof. vm_compute. reflexivity. Qed.

Example formatUnits_texts :
  map (fun '(v, d) => ethers_formatUnits v d)
    [(1500, 3); (1000, 3); (1, 18); (1500, 0); (10 ^ 39, 18)] =
  map Ok [js "1.5"; js "1.0"; js "0.000000000000000001"; js "1500";
          js "1000000000000000000000.0"].
Proof. vm_compute. reflexivity. Qed.

(** Hours of 1e21 print as ["1e+21"], which [parseInt] reads as 1: the end
    time is one hour from now. *)
Example end_time_of_1e21_hours :
  end_time 1700000000000 1e21 = 1700003600%float.
Proof. vm_compute. reflexivity. Qed.
(** * Properties *)

(** ** The market-identifier hash *)

Section HashFacts.

Lemma ToInt32_range (x : Z) : - 2 ^ 31 <= ToInt32 x < 2 ^ 31.
Proof.
  unfold ToInt32.
  pose proof (Z.mod_pos_bound (x + 2 ^ 31) (2 ^ 32) ltac:(lia)). lia.
Qed.

Lemma ToInt32_shift (x k : Z) : ToInt32 (x + k * 2 ^ 32) = ToInt32 x.
Proof.
  unfold ToInt32.
  replace (x + k * 2 ^ 32 + 2 ^ 31) with (x + 2 ^ 31 + k * 2 ^ 32) by lia.
  now rewrite Z_mod_plus_full.
Qed.

Lemma ToInt32_unfold (x : Z) : ToInt32 x = x - ((x + 2 ^ 31) / 2 ^ 32) * 2 ^ 32.
Proof. unfold ToInt32. rewrite Z.mod_eq by lia. lia. Qed.

Lemma ToInt32_small (x : Z) : - 2 ^ 31 <= x < 2 ^ 31 -> ToInt32 x = x.
Proof. intros H. unfold ToInt32. rewrite Z.mod_small; lia. Qed.

Lemma js_and_diag (x : Z) : js_and x x = ToInt32 x.
Proof. unfold js_and. apply Z.land_diag. Qed.

Lemma js_shl_5 (x : Z) : js_shl x 5 = ToInt32 (ToInt32 x * 32).
Proof. unfold js_shl. now rewrite Z.shiftl_mul_pow2 by (vm_compute; discriminate). Qed.

Lemma step_rolling (a b : Z) : Hash.step a b = ToInt32 (a * 31 + b).
Proof.
  unfold Hash.step. cbv zeta. rewrite js_and_diag, js_shl_5.
  rewrite (ToInt32_unfold (ToInt32 a * 32)), (ToInt32_unfold a).
  set (k1 := (a + 2 ^ 31) / 2 ^ 32).
  set (k2 := ((a - k1 * 2 ^ 32) * 32 + 2 ^ 31) / 2 ^ 32).
  replace ((a - k1 * 2 ^ 32) * 32 - k2 * 2 ^ 32 - a + b)
    with (a * 31 + b + (- (32 * k1 + k2)) * 2 ^ 32) by lia.
  apply ToInt32_shift.
Qed.

Lemma fold_step_rolling (s : jsstring) (h : Z) :
  fold_left Hash.step s h =
  fold_left (fun hash charCode => ToInt32 (hash * 31 + charCode)) s h.
Proof.
  revert h. induction s as [|c s IH]; intros h; simpl; [reflexivity|].
  now rewrite step_rolling, IH.
Qed.

Lemma rolling_hash_range (s : jsstring) (h : Z) :
  - 2 ^ 31 <= h < 2 ^ 31 ->
  - 2 ^ 31 <= fold_left (fun hash charCode => ToInt32 (hash * 31 + charCode)) s h < 2 ^ 31.
Proof.
  revert h. induction s as [|c s IH]; intros h Hh; simpl; [exact Hh|].
  apply IH, ToInt32_range.
Qed.

End HashFacts.

(** C8. [mapMarketIdToCampaignId] is a function of its argument alone; its
    accumulator is the rolling hash [hash * 31 + charCode] kept in signed
    32-bit range, and the result is the absolute value of that hash's
    remainder by 1000, a non-negative integer below 1000. *)
Theorem mapMarketIdToCampaignId_rolling_hash (marketId : jsstring) :
  Hash.hashCode marketId = Hash.rolling_hash marketId /\
  - 2 ^ 31 <= Hash.rolling_hash marketId < 2 ^ 31 /\
  Hash.mapMarketIdToCampaignId marketId = Z.abs (Z.rem (Hash.rolling_hash marketId) 1000) /\
  0 <= Hash.mapMarketIdToCampaignId marketId < 1000.
Proof.
  assert (E : Hash.hashCode marketId = Hash.rolling_hash marketId)
    by apply fold_step_rolling.
  repeat split.
  - exact E.
  - apply rolling_hash_range. lia.
  - apply rolling_hash_range. lia.
  - unfold Hash.mapMarketIdToCampaignId, js_rem. now rewrite E.
  - apply Z.abs_nonneg.
  - unfold Hash.mapMarketIdToCampaignId, js_rem.
    pose proof (Z.rem_bound_abs (Hash.hashCode marketId) 1000 ltac:(lia)). lia.
Qed.

(** ** Address validation and formatting *)

Section AddressFacts.

Import Address.

Lemma matchk_repeat_S (n : nat) (r : regex) (i : nat) (s : jsstring)
    (k : nat -> jsstring -> bool) :
  matchk (RRepeat (S n) r) i s k =
  matchk r i s (fun i' s' => matchk (RRepeat n r) i' s' k).
Proof. reflexivity. Qed.

Lemma matchk_class_cons (ranges : list (Z * Z)) (i : nat) (x : Z)
    (s : jsstring) (k : nat -> jsstring -> bool) :
  matchk (RClass ranges) i (x :: s) k = in_ranges x ranges && k (S i) s.
Proof. reflexivity. Qed.

(** [[...]{n}] consumes exactly [n] characters of the class. *)
Lemma matchk_repeat_class (n : nat) (ranges : list (Z * Z)) (i : nat)
    (s : jsstring) (k : nat -> jsstring -> bool) :
  matchk (RRepeat n (RClass ranges)) i s k = true <->
  exists pre post, s = pre ++ post /\ length pre = n /\
    Forall (fun c => in_ranges c ranges = true) pre /\ k (i + n)%nat post = true.
Proof.
  revert i s. induction n as [|n IH]; intros i s.
  - simpl. rewrite Nat.add_0_r. split.
    + intros H. exists [], s. auto.
    + intros (pre & post & -> & Hlen & _ & Hk).
      destruct pre; [exact Hk | discriminate].
  - rewrite matchk_repeat_S. destruct s as [|x s].
    + change (matchk (RClass ranges) i [] _) with false.
      split; [discriminate|].
      intros (pre & post & Hs & Hlen & _).
      destruct pre; discriminate.
    + rewrite matchk_class_cons. cbv beta.
      rewrite andb_true_iff, IH. split.
      * intros (Hx & pre & post & -> & Hlen & Hall & Hk).
        exists (x :: pre), post. repeat split; simpl; auto.
        now replace (i + S n)%nat with (S i + n)%nat by lia.
      * intros (pre & post & Hs & Hlen & Hall & Hk).
        destruct pre as [|y pre]; [discriminate|].
        injection Hs as -> ->. inversion Hall; subst. split; [assumption|].
        exists pre, post. repeat split; auto.
        now replace (S i + n)%nat with (i + S n)%nat by lia.
Qed.

(** A pattern that begins with [^] can only match from index 0. *)
Lemma regex_test_anchored (r : regex) (s : jsstring) :
  regex_test (RSeq RStart r) s = matchk r 0 s (fun _ _ => true).
Proof.
  unfold regex_test. rewrite <- cons_seq. simpl existsb.
  assert (H : forall l, (forall p, In p l -> p <> 0%nat) ->
    existsb (fun p => matchk (RSeq RStart r) p (drop p s) (fun _ _ => true)) l = false).
  { induction l as [|p l IH]; intros Hl; [reflexivity|]. simpl.
    destruct p as [|p]; [exfalso; apply (Hl 0%nat); [now left | reflexivity]|].
    simpl. apply IH. intros q Hq. apply Hl. now right. }
  rewrite H, orb_false_r; [reflexivity|].
  intros p Hp. apply in_seq in Hp. lia.
Qed.

Lemma in_ranges_hex (c : Z) :
  in_ranges c [(chr "a", chr "f"); (chr "A", chr "F"); (chr "0", chr "9")] = true
  <-> is_hex_digit c.
Proof.
  unfold in_ranges, is_hex_digit. cbn [existsb].
  rewrite !orb_true_iff, !andb_true_iff, !Z.leb_le.
  intuition discriminate.
Qed.

Lemma isAddressValid_iff (address : jsstring) :
  isAddressValid address = true <-> address_format address.
Proof.
  unfold isAddressValid, address_regex, address_format.
  rewrite regex_test_anchored. split.
  - destruct address as [|a [|b rest]]; simpl; try discriminate.
    + now rewrite andb_false_r.
    + rewrite !andb_true_iff, !Z.eqb_eq.
      intros (-> & -> & H).
      change (matchk (RRepeat 40 (RClass [(chr "a", chr "f"); (chr "A", chr "F");
                (chr "0", chr "9")])) 2 rest
                (fun i' s' => matchk REnd i' s' (fun _ _ => true)) = true) in H.
      apply matchk_repeat_class in H.
      destruct H as (pre & post & -> & Hlen & Hall & Hend).
      destruct post; [|discriminate].
      exists pre. rewrite app_nil_r. repeat split; [assumption|].
      eapply Forall_impl; [exact Hall|]. intros c. apply in_ranges_hex.
  - intros (digits & -> & Hlen & Hall).
    change (js "0x" ++ digits) with (chr "0" :: chr "x" :: digits).
    cbn [matchk]. rewrite !Z.eqb_refl. cbn [andb Nat.eqb].
    change (matchk (RRepeat 40 (RClass [(chr "a", chr "f"); (chr "A", chr "F");
              (chr "0", chr "9")])) 2 digits
              (fun i' s' => matchk REnd i' s' (fun _ _ => true)) = true).
    apply matchk_repeat_class. exists digits, []. rewrite app_nil_r.
    repeat split; [assumption|].
    eapply Forall_impl; [exact Hall|]. intros c. apply in_ranges_hex.
Qed.

Lemma substring_prefix (s : jsstring) (n : nat) :
  substring s 0 (Some (Z.of_nat n)) = take n s.
Proof.
  unfold substring. cbv zeta.
  set (len := Z.of_nat (length s)).
  assert (Hlen : 0 <= len) by (subst len; lia).
  replace (Z.min (Z.max 0 0) len) with 0 by lia.
  replace (Z.min (Z.max (Z.of_nat n) 0) len) with (Z.min (Z.of_nat n) len) by lia.
  replace (Z.min 0 (Z.min (Z.of_nat n) len)) with 0 by lia.
  replace (Z.max 0 (Z.min (Z.of_nat n) len)) with (Z.min (Z.of_nat n) len) by lia.
  rewrite Z.sub_0_r. change (Z.to_nat 0) with 0%nat. rewrite drop_0.
  destruct (Nat.le_gt_cases n (length s)) as [H|H].
  - now replace (Z.to_nat (Z.min (Z.of_nat n) len)) with n by lia.
  - replace (Z.to_nat (Z.min (Z.of_nat n) len)) with (length s) by lia.
    rewrite !take_ge by lia. reflexivity.
Qed.

Lemma substring_suffix (s : jsstring) (n : nat) :
  substring s (Z.of_nat (length s) - Z.of_nat n) None = drop (length s - n) s.
Proof.
  unfold substring. cbv zeta.
  set (len := Z.of_nat (length s)).
  assert (Hlen : 0 <= len) by (subst len; lia).
  replace (Z.min (Z.max len 0) len) with len by lia.
  set (from := Z.min (Z.max (len - Z.of_nat n) 0) len).
  assert (Hfrom : Z.to_nat from = (length s - n)%nat) by lia.
  replace (Z.min from len) with from by lia.
  replace (Z.max from len) with len by lia.
  rewrite Hfrom. apply take_ge. rewrite length_drop. lia.
Qed.

Lemma formatAddress_eq (address : jsstring) :
  formatAddress address =
  take 6 address ++ js "..." ++ drop (length address - 4) address.
Proof.
  unfold formatAddress.
  change (Some 6) with (Some (Z.of_nat 6)).
  change (Z.of_nat (length address) - 4)
    with (Z.of_nat (length address) - Z.of_nat 4).
  now rewrite substring_prefix, substring_suffix.
Qed.

End AddressFacts.

(** C9. [isAddressValid] returns true on exactly the strings of the form
    [0x] followed by 40 hexadecimal digits, and false on every other
    string. *)
Theorem isAddressValid_spec (address : jsstring) :
  (Address.address_format address -> Address.isAddressValid address = true) /\
  (~ Address.address_format address -> Address.isAddressValid address = false).
Proof.
  split.
  - apply isAddressValid_iff.
  - intros H. destruct (Address.isAddressValid address) eqn:E; [|reflexivity].
    exfalso. apply H. now apply isAddressValid_iff.
Qed.

(** C10. [formatAddress] returns a string on every input: the first (up to)
    six characters, three dots, and the last (up to) four characters.  On a
    valid address this is [a[0:6] + "..." + a[-4:]], of length 6 + 3 + 4. *)
Theorem formatAddress_total_and_shape (address : jsstring) :
  Address.formatAddress address =
    take 6 address ++ js "..." ++ drop (length address - 4) address /\
  length (Address.formatAddress address) =
    (min 6 (length address) + 3 + min 4 (length address))%nat /\
  (Address.isAddressValid address = true ->
   Address.formatAddress address = take 6 address ++ js "..." ++ drop 38 address /\
   length (take 6 address) = 6%nat /\ length (drop 38 address) = 4%nat /\
   length (Address.formatAddress address) = (6 + 3 + 4)%nat).
Proof.
  pose proof (formatAddress_eq address) as E.
  assert (L : length (Address.formatAddress address) =
              (min 6 (length address) + 3 + min 4 (length address))%nat).
  { rewrite E, !length_app, length_take, length_drop. simpl length. lia. }
  repeat split; try assumption.
  all: apply isAddressValid_iff in H; destruct H as (digits & -> & Hlen & _).
  - rewrite E. rewrite length_app, Hlen. reflexivity.
  - rewrite length_take, length_app, Hlen. reflexivity.
  - rewrite length_drop, length_app, Hlen. reflexivity.
  - rewrite L, length_app, Hlen. reflexivity.
Qed.

(** ** The campaign identity resolver *)

(** Unfolds the monad so that a run can be computed step by step. *)
Ltac run :=
  cbv beta iota zeta delta
    [mbind mret M_bind M_ret await throw try_catch console_error console_warn
     console_log console_emit localStorage_getItem fst snd].

Lemma fallback_run (marketId : jsstring) (w : World) :
  (storedId ← localStorage_getItem (cache_key marketId);
   match storedId with
   | Some storedId => if truthy (JStr storedId) then mret (JStr storedId) else mret JNull
   | None => mret JNull
   end) w =
  (Ok match localStorage w !! cache_key marketId with
      | Some (c :: s) => JStr (c :: s)
      | _ => JNull
      end, w).
Proof.
  run. destruct (localStorage w !! cache_key marketId) as [[|c s]|]; reflexivity.
Qed.

(** C1, as stated, fails: with the network down and the identifier 7 in the
    local cache, the resolver returns [null], not ["7"]. *)
Lemma getOnChainCampaignId_network_error_skips_cache :
  remote_fails fetch_unreachable (js "m1") /\
  localStorage world_cached_7 !! cache_key (js "m1") = Some (js "7") /\
  fst (getOnChainCampaignId fetch_unreachable (js "m1") None world_cached_7) = Ok JNull /\
  fst (getOnChainCampaignId fetch_unreachable (js "m1") None world_cached_7)
    <> Ok (JStr (js "7")).
Proof.
  split; [left; eexists; reflexivity|].
  split; [apply lookup_singleton_eq|].
  split; [reflexivity|discriminate].
Qed.

(** C1, amended.  A non-OK response falls through to the local cache keyed
    by [market_<id>_onchain_id]: a non-empty cached string is returned (["7"]
    gives ["7"]), an absent or empty one gives [null].  A rejected request
    (network failure) is caught and logged, and the resolver returns [null]
    without reading the cache.  Neither case throws. *)
Theorem getOnChainCampaignId_remote_failure
    (fetch : jsstring -> Result Response) (marketId : jsstring)
    (provider : option Provider) (w : World) :
  (forall r, fetch (market_url marketId) = Ok r -> ok r = false ->
     (forall c s, localStorage w !! cache_key marketId = Some (c :: s) ->
        getOnChainCampaignId fetch marketId provider w = (Ok (JStr (c :: s)), w)) /\
     (localStorage w !! cache_key marketId = Some [] \/
      localStorage w !! cache_key marketId = None ->
        getOnChainCampaignId fetch marketId provider w = (Ok JNull, w))) /\
  (forall e, fetch (market_url marketId) = Throw e ->
     getOnChainCampaignId fetch marketId provider w =
     (Ok JNull,
      logged w ErrorLevel [AStr (js "Error getting on-chain campaign ID:"); AErr e])).
Proof.
  split.
  - intros r Hr Hok.
    assert (E : getOnChainCampaignId fetch marketId provider w =
                (Ok match localStorage w !! cache_key marketId with
                    | Some (c :: s) => JStr (c :: s)
                    | _ => JNull
                    end, w)).
    { unfold getOnChainCampaignId. cbv zeta. unfold try_catch at 1.
      unfold mbind at 1, M_bind at 1, await at 1. rewrite Hr, Hok.
      now rewrite fallback_run. }
    split.
    + intros c s Hc. now rewrite E, Hc.
    + intros [Hc|Hc]; now rewrite E, Hc.
  - intros e He. unfold getOnChainCampaignId. run. now rewrite He.
Qed.

Lemma getOnChainCampaignId_remote_failure_witness :
  getOnChainCampaignId fetch_not_found (js "m1") None world_cached_7 =
    (Ok (JStr (js "7")), world_cached_7) /\
  getOnChainCampaignId fetch_unreachable (js "m1") None world_cached_7 =
    (Ok JNull,
     logged world_cached_7 ErrorLevel
       [AStr (js "Error getting on-chain campaign ID:");
        AErr (Error_ (js "Failed to fetch"))]).
Proof.
  split.
  - apply (proj1 (getOnChainCampaignId_remote_failure fetch_not_found (js "m1")
                    None world_cached_7) (mkResponse false (Ok (JObj [])))
             eq_refl eq_refl).
    apply lookup_singleton_eq.
  - apply (proj2 (getOnChainCampaignId_remote_failure fetch_unreachable (js "m1")
                    None world_cached_7) (Error_ (js "Failed to fetch")) eq_refl).
Defined.

(** C5. When the remote endpoint answers OK with a non-empty [on_chain_id],
    that value is the result, whatever the local cache holds; when the remote
    store holds no such value and the local cache has no (or an empty) entry,
    the result is [null]. *)
Theorem getOnChainCampaignId_remote_first
    (fetch : jsstring -> Result Response) (marketId : jsstring)
    (provider : option Provider) (w : World) :
  (forall v, remote_holds fetch marketId v ->
     getOnChainCampaignId fetch marketId provider w = (Ok v, w)) /\
  ((forall v, ~ remote_holds fetch marketId v) ->
   localStorage w !! cache_key marketId = None \/
   localStorage w !! cache_key marketId = Some [] ->
     fst (getOnChainCampaignId fetch marketId provider w) = Ok JNull).
Proof.
  split.
  - intros v (r & body & Hr & Hok & Hjson & Hprop & Htruthy).
    unfold getOnChainCampaignId. run. now rewrite Hr, Hok, Hjson, Hprop, Htruthy.
  - intros Hnone Hcache.
    unfold getOnChainCampaignId. cbv zeta. unfold try_catch at 1.
    unfold mbind at 1, M_bind at 1, await at 1.
    destruct (fetch (market_url marketId)) as [r|e] eqn:Hr; [|reflexivity].
    destruct (ok r) eqn:Hok.
    + unfold mbind at 1, M_bind at 1, await at 1.
      destruct (json r) as [body|e] eqn:Hjson; [|reflexivity].
      unfold mbind at 1, M_bind at 1, await at 1.
      destruct (get_prop body (js "on_chain_id")) as [v|e] eqn:Hprop; [|reflexivity].
      destruct (truthy v) eqn:Htruthy.
      * exfalso. apply (Hnone v). exists r, body. auto.
      * now rewrite fallback_run; destruct Hcache as [-> | ->].
    + now rewrite fallback_run; destruct Hcache as [-> | ->].
Qed.

Lemma getOnChainCampaignId_remote_first_witness :
  getOnChainCampaignId fetch_42 (js "m1") None world_cached_7 =
    (Ok (JStr (js "42")), world_cached_7) /\
  fst (getOnChainCampaignId fetch_not_found (js "m1") None empty_world) = Ok JNull.
Proof.
  split.
  - apply (proj1 (getOnChainCampaignId_remote_first fetch_42 (js "m1") None
                    world_cached_7)).
    exists (mkResponse true (Ok (JObj [(js "on_chain_id", JStr (js "42"))]))),
           (JObj [(js "on_chain_id", JStr (js "42"))]).
    repeat split; reflexivity.
  - apply (proj2 (getOnChainCampaignId_remote_first fetch_not_found (js "m1") None
                    empty_world)).
    + intros v (r & body & Hr & Hok & _). injection Hr as <-. discriminate.
    + left. apply lookup_empty.
Defined.

(** ** Numbers as text *)

Section NumberFacts.













End NumberFacts.

(** ** The token balance reader *)

Section TokenBalanceFacts.

Variable formatUnits : Z -> Z -> Result jsstring.


End TokenBalanceFacts.



(** ** The campaign writer *)

Section CampaignWriterFacts.

Lemma find_campaign_created (ls : list Log) :
  List.find is_campaign_created (map parse_or_null ls) =
  match first_campaign_created ls with
  | Some d => Some (Some d)
  | None => None
  end.
Proof.
  induction ls as [|l ls IH]; [reflexivity|].
  destruct l as [e| |d]; simpl; try exact IH.
  unfold bool_decide. destruct (decide (name d = js "CampaignCreated")) as [H|H].
  - destruct (decide_rel eq (name d) (js "CampaignCreated")); [reflexivity|contradiction].
  - destruct (decide_rel eq (name d) (js "CampaignCreated")); [contradiction|exact IH].
Qed.

(** The inner [try] never throws: it yields the identifier of the first
    [CampaignCreated] event, or nothing. *)
Lemma campaign_id_from_logs_run (receipt : Receipt) (w : World) :
  exists w', campaign_id_from_logs receipt w =
             (Ok (logged_campaign_id (logs receipt)), w').
Proof.
  unfold campaign_id_from_logs, logged_campaign_id. cbv zeta.
  rewrite find_campaign_created.
  destruct (first_campaign_created (logs receipt)) as [d|];
    [|eexists; reflexivity].
  destruct (event_args d) as [|v rest]; eexists; reflexivity.
Qed.

Lemma try_catch_rethrow {A : Type} (body : M A) (handler : JsError -> M A)
    (f : JsError -> JsError) (w : World) :
  (forall e w', fst (handler e w') = Throw (f e)) ->
  fst (try_catch body handler w) =
  match fst (body w) with
  | Ok a => Ok a
  | Throw e => Throw (f e)
  end.
Proof.
  intros H. unfold try_catch. destruct (body w) as [[a|e] w']; [reflexivity|apply H].
Qed.

Lemma createCampaignOnChain_outcome (Date_now : float) (signer : Signer)
    (description : jsstring) (expiryHours : float) (gasLimit : option float)
    (w : World) :
  fst (createCampaignOnChain Date_now signer description expiryHours gasLimit w) =
  creation_outcome Date_now signer description expiryHours gasLimit.
Proof.
  unfold createCampaignOnChain. cbv zeta.
  rewrite (try_catch_rethrow _ _ rethrown).
  2: { intros e w'. unfold rethrown. run.
       destruct (get_prop e (js "message")) as [message|t]; [|reflexivity].
       destruct (truthy message); [|reflexivity].
       now destruct (ToString message). }
  unfold creation_outcome, submit, end_time, gas_limit. run.
  destruct (getPredictionContract signer) as [c|e]; [|reflexivity].
  destruct (Date_toISOString _) as [iso|e]; [|reflexivity].
  destruct (createCampaign c _ _ _ _ _ _) as [tx|e]; [|reflexivity].
  destruct (wait tx) as [receipt|e]; [|reflexivity].
  match goal with |- context [campaign_id_from_logs receipt ?W] =>
    destruct (campaign_id_from_logs_run receipt W) as [w' ->] end.
  destruct (logged_campaign_id (logs receipt)) as [campaignId|]; [reflexivity|].
  destruct (numberOfCampaigns c) as [total|e]; reflexivity.
Qed.



End CampaignWriterFacts.

(** C2. After a confirmed submission, [createCampaignOnChain] returns the
    identifier argument of the first [CampaignCreated] event of the
    confirmation's logs as a string (5 gives ["5"]); when the logs hold no
    such event it returns the ledger's campaign count minus one as a string
    (9 gives ["8"]). *)
Theorem createCampaignOnChain_identifier (Date_now : float) (signer : Signer)
    (description : jsstring) (expiryHours : float) (gasLimit : option float)
    (contract : PredictionContract) (receipt : Receipt) (w : World) :
  confirmed_submission Date_now signer description expiryHours gasLimit
    contract receipt ->
  (forall d campaignId rest,
     first_campaign_created (logs receipt) = Some d ->
     event_args d = campaignId :: rest ->
     fst (createCampaignOnChain Date_now signer description expiryHours gasLimit w)
     = Ok (abi_toString campaignId)) /\
  (forall count,
     first_campaign_created (logs receipt) = None ->
     numberOfCampaigns contract = Ok count ->
     fst (createCampaignOnChain Date_now signer description expiryHours gasLimit w)
     = Ok (bigint_toString (count - 1))) /\
  abi_toString (VUint 5) = js "5" /\ bigint_toString (9 - 1) = js "8".
Proof.
  intros (Hc & (iso & Hiso) & tx & Htx & Hwait).
  rewrite createCampaignOnChain_outcome. unfold creation_outcome, logged_campaign_id.
  rewrite Hc, Hiso, Htx, Hwait.
  split; [|split; [|split; reflexivity]].
  - intros d campaignId rest Hd Hargs. now rewrite Hd, Hargs.
  - intros count Hnone Hcount. now rewrite Hnone, Hcount.
Qed.



(** ** The pool reconciler *)

Section PoolReconcilerFacts.

Lemma rows_with_id_map (f : MarketRow -> MarketRow) (k : jsstring)
    (rows : list MarketRow) :
  (forall r, id (f r) = id r) ->
  rows_with_id k (map f rows) = map f (rows_with_id k rows).
Proof.
  intros Hf. unfold rows_with_id.
  induction rows as [|r rows IH]; [reflexivity|].
  cbn [map]. rewrite !filter_cons, Hf.
  destruct (decide (id r = k)); cbn [map]; now rewrite IH.
Qed.

Lemma rows_with_other_id (f : MarketRow -> MarketRow) (k other : jsstring)
    (rows : list MarketRow) :
  (forall r, id (f r) = id r) -> other <> k ->
  rows_with_id other
    (map (fun r => if decide (id r = k) then f r else r) rows) =
  rows_with_id other rows.
Proof.
  intros Hf Hne. unfold rows_with_id.
  induction rows as [|r rows IH]; [reflexivity|].
  cbn [map]. rewrite !filter_cons.
  destruct (decide (id r = k)) as [Hk|Hk].
  - rewrite Hf. destruct (decide (id r = other)); [congruence|exact IH].
  - destruct (decide (id r = other)); now rewrite IH.
Qed.

Lemma credit_id (position : Side) (amount : float) (r : MarketRow) :
  id (credit position amount r) = id r.
Proof. now destruct position. Qed.

Lemma rows_with_id_elem (k : jsstring) (rows : list MarketRow) (row : MarketRow) :
  rows_with_id k rows = [row] -> id row = k.
Proof.
  intros H. assert (Hin : row ∈ rows_with_id k rows) by (rewrite H; left).
  unfold rows_with_id in Hin. now apply list_elem_of_filter in Hin as [? _].
Qed.

(** The table written by the update is the table with the market's row
    credited. *)
Lemma updated_table_credited (marketId : jsstring) (position : Side)
    (amount : float) (rows : list MarketRow) (row : MarketRow) :
  rows_with_id marketId rows = [row] ->
  map (fun r => if decide (id r = marketId)
                then apply_update
                       (match position with
                        | yes => mkUpdate (Some (Number (yes_pool row) + amount)%float) None
                        | no => mkUpdate None (Some (Number (no_pool row) + amount)%float)
                        end) r
                else r) rows =
  credited_table marketId position amount rows.
Proof.
  intros Hrow. unfold credited_table. apply map_ext_in. intros r Hr.
  destruct (decide (id r = marketId)) as [Hid|]; [|reflexivity].
  assert (Hin : r ∈ rows_with_id marketId rows).
  { unfold rows_with_id. apply list_elem_of_filter. split; [exact Hid|].
    now apply list_elem_of_In. }
  rewrite Hrow in Hin. apply list_elem_of_singleton in Hin as ->.
  now destruct position.
Qed.

Lemma credited_table_row (marketId : jsstring) (position : Side)
    (amount : float) (rows : list MarketRow) (row : MarketRow) :
  rows_with_id marketId rows = [row] ->
  rows_with_id marketId (credited_table marketId position amount rows) =
  [credit position amount row].
Proof.
  intros Hrow. pose proof (rows_with_id_elem _ _ _ Hrow) as Hid.
  unfold credited_table. rewrite rows_with_id_map, Hrow.
  - cbn [map]. now rewrite decide_True by exact Hid.
  - intros r. destruct (decide (id r = marketId)); [apply credit_id|reflexivity].
Qed.

(** The complete run when all three requests succeed. *)
Lemma updateMarketPools_all_ok (sb : Supabase) (marketId : jsstring)
    (position : Side) (amount : float) (w : World) (row : MarketRow) :
  select_outcome sb = Succeeds -> update_outcome sb = Succeeds ->
  insert_outcome sb = Succeeds ->
  rows_with_id marketId (prediction_markets w) = [row] ->
  exists w', updateMarketPools sb marketId position amount w = (Ok tt, w') /\
    prediction_markets w' =
      credited_table marketId position amount (prediction_markets w) /\
    user_positions w' =
      user_positions w ++
      [mkPosition marketId (localStorage w !! js "walletAddress") position amount] /\
    localStorage w' = localStorage w.
Proof.
  intros Hs Hu Hi Hrow.
  unfold updateMarketPools, select_single, update_eq, insert_position. run.
  rewrite Hs, Hrow. cbn [error data]. rewrite Hu. cbn [error data]. rewrite Hi.
  cbn [error data]. eexists. split; [reflexivity|].
  cbn [prediction_markets user_positions localStorage logged].
  split; [|split; reflexivity].
  now apply updated_table_credited.
Qed.

End PoolReconcilerFacts.

(** C3. When the three store operations succeed, [updateMarketPools] adds
    the amount to the pool of the selected side of the market's row and
    leaves the other pool, and every other market, unchanged; it appends
    exactly one position record, carrying the market, the stored wallet
    address, the side and the amount. *)
Theorem updateMarketPools_success (supabase : Supabase) (marketId : jsstring)
    (position : Side) (amount : float) (w : World) (row : MarketRow) :
  select_outcome supabase = Succeeds ->
  update_outcome supabase = Succeeds ->
  insert_outcome supabase = Succeeds ->
  rows_with_id marketId (prediction_markets w) = [row] ->
  exists w',
    updateMarketPools supabase marketId position amount w = (Ok tt, w') /\
    prediction_markets w' =
      credited_table marketId position amount (prediction_markets w) /\
    rows_with_id marketId (prediction_markets w') = [credit position amount row] /\
    (forall other, other <> marketId ->
       rows_with_id other (prediction_markets w') =
       rows_with_id other (prediction_markets w)) /\
    user_positions w' =
      user_positions w ++
      [mkPosition marketId (localStorage w !! js "walletAddress") position amount] /\
    localStorage w' = localStorage w.
Proof.
  intros Hs Hu Hi Hrow.
  destruct (updateMarketPools_all_ok supabase marketId position amount w row
              Hs Hu Hi Hrow) as (w' & Hrun & Htable & Hp & Hl).
  exists w'. split; [exact Hrun|]. split; [exact Htable|]. rewrite Htable.
  split; [|split; [|split; assumption]].
  - now apply credited_table_row.
  - intros other Hne. apply rows_with_other_id; [apply credit_id|exact Hne].
Qed.

(** C4. [updateMarketPools] never throws.  When the pool read or the pool
    update fails, the call changes neither table and only reports the error
    on the console.  When the read and the update succeed and the position
    insert fails, the failure is reported but the pools stay updated: the
    two writes are not atomic. *)
Theorem updateMarketPools_failures (supabase : Supabase) (marketId : jsstring)
    (position : Side) (amount : float) (w : World) :
  (exists w', updateMarketPools supabase marketId position amount w = (Ok tt, w')) /\
  (read_fails supabase marketId w \/ update_outcome supabase <> Succeeds ->
   let w' := snd (updateMarketPools supabase marketId position amount w) in
   prediction_markets w' = prediction_markets w /\
   user_positions w' = user_positions w /\
   error_logged w') /\
  (forall row,
     select_outcome supabase = Succeeds ->
     rows_with_id marketId (prediction_markets w) = [row] ->
     update_outcome supabase = Succeeds ->
     insert_outcome supabase <> Succeeds ->
     let w' := snd (updateMarketPools supabase marketId position amount w) in
     prediction_markets w' =
       credited_table marketId position amount (prediction_markets w) /\
     rows_with_id marketId (prediction_markets w') = [credit position amount row] /\
     user_positions w' = user_positions w /\
     error_logged w').
Proof.
  split; [|split].
  - unfold updateMarketPools, select_single, update_eq, insert_position. run.
    destruct (select_outcome supabase); [|eexists; reflexivity..].
    destruct (rows_with_id marketId (prediction_markets w)) as [|r [|r' l]];
      [eexists; reflexivity| |eexists; reflexivity].
    cbn [error data].
    destruct (update_outcome supabase); [|eexists; reflexivity..].
    cbn [error data].
    destruct (insert_outcome supabase); eexists; reflexivity.
  - intros Hfail w'. subst w'.
    unfold updateMarketPools, select_single, update_eq, insert_position. run.
    destruct (select_outcome supabase) eqn:Hs.
    2, 3: cbn; repeat split; eexists; apply last_snoc.
    destruct (rows_with_id marketId (prediction_markets w)) as [|r [|r' l]] eqn:Hrows.
    1, 3: cbn; repeat split; eexists; apply last_snoc.
    cbn [error data].
    destruct (update_outcome supabase) eqn:Hu.
    2, 3: cbn; repeat split; eexists; apply last_snoc.
    exfalso. destruct Hfail as [[H|H]|H]; [congruence|now apply (H r)|congruence].
  - intros row Hs Hrow Hu Hi w'. subst w'.
    unfold updateMarketPools, select_single, update_eq, insert_position. run.
    rewrite Hs, Hrow. cbn [error data]. rewrite Hu. cbn [error data].
    destruct (insert_outcome supabase) eqn:Hi'; [congruence| |];
      cbn [error data snd prediction_markets user_positions logged];
      rewrite (updated_table_credited _ _ _ _ _ Hrow);
      (split; [reflexivity|]); (split; [now apply credited_table_row|]);
      (split; [reflexivity|]); eexists; apply last_snoc.
Qed.

(** ** The statements at concrete inputs *)

Lemma createCampaignOnChain_identifier_witness :
  fst (createCampaignOnChain 1700000000000 (ledger (Ok tx_with_event) (Ok 9))
         (js "BTC above 100k") 24 None empty_world) = Ok (js "5") /\
  fst (createCampaignOnChain 1700000000000 (ledger (Ok tx_without_event) (Ok 9))
         (js "BTC above 100k") 24 None empty_world) = Ok (js "8").
Proof.
  split.
  - apply (proj1 (createCampaignOnChain_identifier 1700000000000
                    (ledger (Ok tx_with_event) (Ok 9)) (js "BTC above 100k") 24 None
                    (contract_of (Ok tx_with_event) (Ok 9)) receipt_with_event
                    empty_world
                    ltac:(split; [reflexivity|];
                          split; [eexists; vm_compute; reflexivity|];
                          exists tx_with_event; split; reflexivity))
             (mkDesc (js "CampaignCreated")
                [VUint 5; VText (js "0xcreator"); VText (js "BTC"); VUint 1700086400])
             (VUint 5) _ eq_refl eq_refl).
  - apply (proj1 (proj2 (createCampaignOnChain_identifier 1700000000000
                    (ledger (Ok tx_without_event) (Ok 9)) (js "BTC above 100k") 24 None
                    (contract_of (Ok tx_without_event) (Ok 9)) receipt_without_event
                    empty_world
                    ltac:(split; [reflexivity|];
                          split; [eexists; vm_compute; reflexivity|];
                          exists tx_without_event; split; reflexivity)))
             9 eq_refl eq_refl).
Defined.


Lemma updateMarketPools_success_witness :
  exists w',
    updateMarketPools store_up (js "m1") yes 3 world_market_10 = (Ok tt, w') /\
    prediction_markets w' = [mkMarket (js "m2") 1 2; mkMarket (js "m1") 13 4] /\
    user_positions w' = [mkPosition (js "m1") (Some (js "0xabc")) yes 3].
Proof.
  destruct (updateMarketPools_success store_up (js "m1") yes 3 world_market_10
              (mkMarket (js "m1") 10 4) eq_refl eq_refl eq_refl eq_refl)
    as (w' & Hrun & Htable & _ & _ & Hpos & _).
  exists w'. split; [exact Hrun|]. split.
  - rewrite Htable. reflexivity.
  - rewrite Hpos. cbn [user_positions world_market_10 localStorage app].
    now rewrite lookup_singleton_eq.
Defined.

Lemma updateMarketPools_failures_witness :
  (let w' := snd (updateMarketPools store_read_down (js "m1") yes 3 world_market_10) in
   prediction_markets w' = prediction_markets world_market_10 /\
   user_positions w' = [] /\ error_logged w') /\
  (let w' := snd (updateMarketPools store_insert_down (js "m1") yes 3 world_market_10) in
   prediction_markets w' = [mkMarket (js "m2") 1 2; mkMarket (js "m1") 13 4] /\
   user_positions w' = [] /\ error_logged w').
Proof.
  split.
  - apply (proj1 (proj2 (updateMarketPools_failures store_read_down (js "m1") yes 3
                           world_market_10))).
    left. left. discriminate.
  - destruct (proj2 (proj2 (updateMarketPools_failures store_insert_down (js "m1")
                              yes 3 world_market_10))
                (mkMarket (js "m1") 10 4) eq_refl eq_refl eq_refl
                ltac:(discriminate)) as (Htable & _ & Hpos & Hlog).
    split; [rewrite Htable; reflexivity|]. split; assumption.
Defined.


Lemma isAddressValid_spec_witness :
  Address.isAddressValid LEO_TOKEN_ADDRESS = true /\
  Address.isAddressValid (js "0x12") = false.
Proof.
  split.
  - apply (proj1 (isAddressValid_spec LEO_TOKEN_ADDRESS)).
    exists (drop 2 LEO_TOKEN_ADDRESS). split; [reflexivity|]. split; [reflexivity|].
    vm_compute drop.
    repeat (apply List.Forall_cons;
            [unfold Address.is_hex_digit, Address.chr; cbn; lia|]).
    apply List.Forall_nil.
  - apply (proj2 (isAddressValid_spec (js "0x12"))).
    intros (digits & H & Hlen & _).
    apply (f_equal length) in H. rewrite length_app, Hlen in H. discriminate.
Defined.

Lemma formatAddress_total_and_shape_witness :
  Address.formatAddress LEO_TOKEN_ADDRESS = js "0xA1F0...1875" /\
  length (Address.formatAddress LEO_TOKEN_ADDRESS) = 13%nat.
Proof.
  destruct (proj2 (proj2 (formatAddress_total_and_shape LEO_TOKEN_ADDRESS)) eq_refl)
    as (Heq & _ & _ & Hlen).
  split; [rewrite Heq; reflexivity|exact Hlen].
Defined.

(** * Further properties of the module *)

(** ** Chain lookup tables *)

Section ChainFacts.

Import Chain.

Lemma own_property_None (key : jsstring) (table : list (jsstring * ChainDetails)) :
  key ∉ map fst table -> own_property key table = None.
Proof.
  induction table as [|[k d] table IH]; intros Hnot; [reflexivity|].
  cbn [own_property]. destruct (decide (k = key)) as [->|Hne].
  - exfalso. apply Hnot. left.
  - apply IH. intros Hin. apply Hnot. now right.
Qed.

Lemma own_property_Some (key : jsstring) (table : list (jsstring * ChainDetails))
    (d : ChainDetails) :
  own_property key table = Some d -> (key, d) ∈ table.
Proof.
  induction table as [|[k d'] table IH]; [discriminate|].
  cbn [own_property]. destruct (decide (k = key)) as [->|Hne].
  - intros [= ->]. left.
  - intros H. right. now apply IH.
Qed.

Lemma own_property_supported (key : jsstring) :
  key ∈ supportedChains -> exists d, own_property key chains = Some d.
Proof.
  unfold supportedChains. rewrite !elem_of_cons, elem_of_nil.
  intros [->|[->|[->|[->|[->|[->|[]]]]]]]; eexists; reflexivity.
Qed.

Lemma chains_entries (key : jsstring) (d : ChainDetails) :
  (key, d) ∈ chains ->
  d <> unknown_network /\ take 8 (explorer d) = js "https://".
Proof.
  unfold chains. rewrite !elem_of_cons, elem_of_nil.
  intros [H|[H|[H|[H|[H|[H|[]]]]]]]; injection H as -> ->;
    (split; [discriminate|reflexivity]).
Qed.

Lemma prototype_keys_not_own (key : jsstring) :
  key ∈ Object_prototype_keys -> own_property key chains = None /\ key <> [].
Proof.
  unfold Object_prototype_keys. rewrite !elem_of_cons, elem_of_nil.
  intros H. repeat (destruct H as [->|H]; [split; [reflexivity|discriminate]|]).
  destruct H.
Qed.

End ChainFacts.

(** X1. The allow-list and the details table agree: a chain is supported
    exactly when [getChainDetails] returns a details object other than the
    "Unknown Network" sentinel, and the explorer of every supported chain is
    an [https://] address. *)
Theorem supported_chain_has_details (chainId : option jsstring) :
  (Chain.checkSupportedChain chainId = true <->
   exists d, Chain.getChainDetails chainId = Chain.Details d /\
             d <> Chain.unknown_network) /\
  (forall d, Chain.checkSupportedChain chainId = true ->
     Chain.getChainDetails chainId = Chain.Details d ->
     take 8 (Chain.explorer d) = js "https://").
Proof.
  unfold Chain.checkSupportedChain, Chain.getChainDetails.
  destruct chainId as [c|].
  2: { split; [split; [discriminate|]|discriminate].
       intros (d & [= <-] & Hne). contradiction. }
  destruct c as [|x c]; cbn [truthy negb].
  { split; [split; [discriminate|]|discriminate].
    intros (d & [= <-] & Hne). contradiction. }
  destruct (bool_decide_reflect (x :: c ∈ Chain.supportedChains)) as [Hin|Hnot].
  - destruct (own_property_supported _ Hin) as [d Hd]. rewrite Hd.
    pose proof (chains_entries _ _ (own_property_Some _ _ _ Hd)) as [Hne Hhttps].
    split; [split; [intros _; exists d; auto|reflexivity]|].
    now intros d' _ [= <-].
  - rewrite own_property_None by exact Hnot.
    split; [split; [discriminate|]|discriminate].
    destruct (bool_decide (x :: c ∈ Chain.Object_prototype_keys));
      intros (d & [= <-] & Hne); contradiction.
Qed.

Lemma supported_chain_has_details_witness :
  Chain.getChainDetails (Some (js "0x89")) =
    Chain.Details (Chain.mkChain (js "Polygon") (js "https://polygonscan.com")) /\
  Chain.checkSupportedChain (Some (js "0xbogus")) = false.
Proof.
  split.
  - destruct (proj1 (proj1 (supported_chain_has_details (Some (js "0x89")))) eq_refl)
      as (d & Hd & _).
    rewrite Hd. vm_compute in Hd. now injection Hd as <-.
  - destruct (Chain.checkSupportedChain (Some (js "0xbogus"))) eqn:E; [|reflexivity].
    destruct (proj1 (proj1 (supported_chain_has_details (Some (js "0xbogus")))) E)
      as (d & Hd & Hne).
    vm_compute in Hd. injection Hd as <-. now contradiction Hne.
Defined.

(** X2. For an unsupported chain id, [getChainDetails] returns the "Unknown
    Network" sentinel unless the id is the name of a property of
    [Object.prototype] (such as [constructor] or [toString]); for those
    names the inherited property is returned instead of the sentinel. *)
Theorem unsupported_chain_details (chainId : option jsstring) :
  Chain.checkSupportedChain chainId = false ->
  (Chain.getChainDetails chainId = Chain.Details Chain.unknown_network <->
   forall c, chainId = Some c -> c ∉ Chain.Object_prototype_keys) /\
  (forall c, chainId = Some c -> c ∈ Chain.Object_prototype_keys ->
     Chain.getChainDetails chainId = Chain.Inherited c).
Proof.
  unfold Chain.checkSupportedChain, Chain.getChainDetails.
  destruct chainId as [c|].
  2: { intros _. split; [split; [discriminate|reflexivity]|discriminate]. }
  destruct c as [|x c]; cbn [truthy negb].
  { intros _. split; [split; [|reflexivity]|].
    - intros _ c [= <-] Hin. now apply prototype_keys_not_own in Hin as [_ ?].
    - intros c [= <-] Hin. now apply prototype_keys_not_own in Hin as [_ ?]. }
  destruct (bool_decide_reflect (x :: c ∈ Chain.supportedChains)) as [Hin|Hnot];
    [discriminate|intros _].
  rewrite own_property_None by exact Hnot.
  destruct (bool_decide_reflect (x :: c ∈ Chain.Object_prototype_keys)) as [Hp|Hp].
  - split; [split; [discriminate|]|].
    + intros H. exfalso. now apply (H _ eq_refl).
    + now intros c' [= <-] _.
  - split; [split; [|reflexivity]|].
    + now intros _ c' [= <-].
    + intros c' [= <-] Hin. contradiction.
Qed.

Lemma unsupported_chain_details_witness :
  Chain.getChainDetails (Some (js "0xdead")) = Chain.Details Chain.unknown_network /\
  Chain.getChainDetails (Some (js "toString")) = Chain.Inherited (js "toString").
Proof.
  split.
  - apply (proj1 (unsupported_chain_details (Some (js "0xdead")) eq_refl)).
    intros c [= <-]. vm_compute. intros H.
    repeat (apply elem_of_cons in H as [H|H]; [discriminate|]).
    now apply elem_of_nil in H.
  - apply (proj2 (unsupported_chain_details (Some (js "toString")) eq_refl)
             (js "toString") eq_refl).
    unfold Chain.Object_prototype_keys. rewrite !elem_of_cons. tauto.
Defined.

(** ** More on addresses and on the identifier hash *)

Lemma isAddressValid_length (address : jsstring) :
  Address.isAddressValid address = true -> length address = 42%nat.
Proof.
  intros H. apply isAddressValid_iff in H as (digits & -> & Hlen & _).
  rewrite length_app, Hlen. reflexivity.
Qed.

(** X3. The pattern is anchored at both ends: a valid address stops being
    valid as soon as anything (a space, a newline, another address) is put
    before or after it. *)
Theorem isAddressValid_rejects_padding (address before after : jsstring) :
  Address.isAddressValid address = true ->
  before ++ after <> [] ->
  Address.isAddressValid (before ++ address ++ after) = false.
Proof.
  intros Hvalid Hpad.
  destruct (Address.isAddressValid (before ++ address ++ after)) eqn:E;
    [|reflexivity].
  apply isAddressValid_length in Hvalid, E.
  rewrite !length_app in E. exfalso. apply Hpad.
  destruct before, after; [reflexivity|simpl in E; lia..].
Qed.

Lemma isAddressValid_rejects_padding_witness :
  Address.isAddressValid (LEO_TOKEN_ADDRESS ++ js " ") = false.
Proof.
  apply (isAddressValid_rejects_padding LEO_TOKEN_ADDRESS [] (js " "));
    [reflexivity|discriminate].
Defined.

(** X4. On a string of at most four characters [formatAddress] shows the
    whole string twice, once on each side of the dots. *)
Theorem formatAddress_short (address : jsstring) :
  (length address <= 4)%nat ->
  Address.formatAddress address = address ++ js "..." ++ address.
Proof.
  intros H. rewrite formatAddress_eq, take_ge by lia.
  replace (length address - 4)%nat with 0%nat by lia. now rewrite drop_0.
Qed.

Lemma formatAddress_short_witness :
  Address.formatAddress (js "0x1") = js "0x1...0x1".
Proof. apply (formatAddress_short (js "0x1")). simpl. lia. Defined.

(** X5. On a string of ten characters or more [formatAddress] keeps the
    first six and the last four characters and hides exactly the
    [length - 10] characters between them; nothing is shown twice. *)
Theorem formatAddress_long (address : jsstring) :
  (10 <= length address)%nat ->
  exists first hidden last,
    address = first ++ hidden ++ last /\
    length first = 6%nat /\ length last = 4%nat /\
    length hidden = (length address - 10)%nat /\
    Address.formatAddress address = first ++ js "..." ++ last.
Proof.
  intros H.
  exists (take 6 address),
         (take (length address - 10) (drop 6 address)),
         (drop (length address - 4) address).
  split; [|split; [|split; [|split]]].
  - rewrite <- (take_drop 6 address) at 1. f_equal.
    rewrite <- (take_drop (length address - 10) (drop 6 address)) at 1. f_equal.
    rewrite drop_drop. f_equal. lia.
  - rewrite length_take. lia.
  - rewrite length_drop. lia.
  - rewrite length_take, length_drop. lia.
  - apply formatAddress_eq.
Qed.

Lemma formatAddress_long_witness :
  exists hidden,
    js "0123456789ab" = js "012345" ++ hidden ++ js "89ab" /\
    length hidden = 2%nat /\
    Address.formatAddress (js "0123456789ab") = js "012345...89ab".
Proof.
  destruct (formatAddress_long (js "0123456789ab") ltac:(simpl; lia))
    as (first & hidden & last & Heq & Hf & Hl & Hh & Hfmt).
  exists (js "67"). repeat split.
Defined.

Section HashCollisions.

Lemma ToInt32_absorb (x c : Z) : ToInt32 (ToInt32 x * 31 + c) = ToInt32 (x * 31 + c).
Proof.
  rewrite (ToInt32_unfold x).
  replace ((x - (x + 2 ^ 31) / 2 ^ 32 * 2 ^ 32) * 31 + c)
    with (x * 31 + c + (- (31 * ((x + 2 ^ 31) / 2 ^ 32))) * 2 ^ 32) by lia.
  apply ToInt32_shift.
Qed.

Lemma hashCode_app (s t : jsstring) :
  Hash.hashCode (s ++ t) = fold_left Hash.step t (Hash.hashCode s).
Proof. unfold Hash.hashCode. apply fold_left_app. Qed.

End HashCollisions.

(** X6. The derived identifier is not collision-free, and collisions are easy
    to make: replacing an occurrence of ["Aa"] by ["BB"] anywhere in a market
    identifier never changes the result of [mapMarketIdToCampaignId]. *)
Theorem mapMarketIdToCampaignId_collides (before after : jsstring) :
  before ++ js "Aa" ++ after <> before ++ js "BB" ++ after /\
  Hash.mapMarketIdToCampaignId (before ++ js "Aa" ++ after) =
  Hash.mapMarketIdToCampaignId (before ++ js "BB" ++ after).
Proof.
  split.
  - intros H. apply app_inv_head in H. discriminate.
  - unfold Hash.mapMarketIdToCampaignId. do 2 f_equal.
    rewrite !hashCode_app, !fold_left_app. f_equal.
    set (h := Hash.hashCode before).
    change (js "Aa") with [65; 97]. change (js "BB") with [66; 66].
    cbn [fold_left]. rewrite !step_rolling, !ToInt32_absorb.
    f_equal. lia.
Qed.

(** ** Helpers that only write to the console *)

Section QuietFacts.

Lemma console_only_refl (w : World) : console_only w w.
Proof. repeat split. exists []. now rewrite app_nil_r. Qed.

Lemma console_only_trans (w1 w2 w3 : World) :
  console_only w1 w2 -> console_only w2 w3 -> console_only w1 w3.
Proof.
  intros (Hl & Hm & Hp & l1 & Hc) (Hl' & Hm' & Hp' & l2 & Hc').
  repeat split; try congruence.
  exists (l1 ++ l2). now rewrite Hc', Hc, app_assoc.
Qed.

Lemma console_only_logged (w : World) (l : Level) (a : list LogArg) :
  console_only w (logged w l a).
Proof. repeat split. now exists [mkLog l a]. Qed.

Lemma quiet_ret {A : Type} (a : A) : quiet (mret a : M A).
Proof. intros w. apply console_only_refl. Qed.

Lemma quiet_await {A : Type} (r : Result A) : quiet (await r).
Proof. intros w. apply console_only_refl. Qed.

Lemma quiet_throw {A : Type} (e : JsError) : quiet (throw e : M A).
Proof. intros w. apply console_only_refl. Qed.

Lemma quiet_emit (l : Level) (a : list LogArg) : quiet (console_emit l a).
Proof. intros w. apply console_only_logged. Qed.

Lemma quiet_getItem (key : jsstring) : quiet (localStorage_getItem key).
Proof. intros w. apply console_only_refl. Qed.

Lemma quiet_bind {A B : Type} (m : M A) (f : A -> M B) :
  quiet m -> (forall a, quiet (f a)) -> quiet (m ≫= f).
Proof.
  intros Hm Hf w. unfold mbind, M_bind. specialize (Hm w).
  destruct (m w) as [[a|e] w']; [|exact Hm].
  eapply console_only_trans; [exact Hm|apply Hf].
Qed.

Lemma quiet_try {A : Type} (body : M A) (handler : JsError -> M A) :
  quiet body -> (forall e, quiet (handler e)) -> quiet (try_catch body handler).
Proof.
  intros Hb Hh w. unfold try_catch. specialize (Hb w).
  destruct (body w) as [[a|e] w']; [exact Hb|].
  eapply console_only_trans; [exact Hb|apply Hh].
Qed.

End QuietFacts.

(** Decomposes a computation built from the monad's operations. *)
Ltac quiet_step :=
  first
    [ apply quiet_ret | apply quiet_await | apply quiet_throw
    | apply quiet_emit | apply quiet_getItem
    | apply quiet_bind; [|intros ?]
    | apply quiet_try; [|intros ?]
    | match goal with
      | |- quiet (if ?b then _ else _) => destruct b
      | |- quiet (match ?x with _ => _ end) => destruct x
      end ].

Section ResolverFacts.

Lemma getOnChainCampaignId_quiet (fetch : jsstring -> Result Response)
    (marketId : jsstring) (provider : option Provider) :
  quiet (getOnChainCampaignId fetch marketId provider).
Proof. unfold getOnChainCampaignId. cbv zeta. repeat quiet_step. Qed.

Lemma getOnChainCampaignId_fst (fetch : jsstring -> Result Response)
    (marketId : jsstring) (provider : option Provider) (w : World) :
  fst (getOnChainCampaignId fetch marketId provider w) =
  Ok (resolved_value fetch (localStorage w) marketId).
Proof.
  unfold getOnChainCampaignId, resolved_value, cached_value. cbv zeta.
  unfold try_catch at 1. unfold mbind at 1, M_bind at 1, await at 1.
  destruct (fetch (market_url marketId)) as [r|e]; [|reflexivity].
  destruct (ok r).
  - unfold mbind at 1, M_bind at 1, await at 1.
    destruct (json r) as [body|e]; [|reflexivity].
    unfold mbind at 1, M_bind at 1, await at 1.
    destruct (get_prop body (js "on_chain_id")) as [v|e]; [|reflexivity].
    destruct (truthy v); [reflexivity|].
    now rewrite fallback_run.
  - now rewrite fallback_run.
Qed.

End ResolverFacts.

(** X7. [getOnChainCampaignId] never throws; its result is [null] or a
    truthy value (never an empty string, [0] or [undefined]), so a caller may
    test it with [if (id)]; and it changes nothing but the console. *)
Theorem getOnChainCampaignId_null_or_truthy
    (fetch : jsstring -> Result Response) (marketId : jsstring)
    (provider : option Provider) (w : World) :
  (exists v, fst (getOnChainCampaignId fetch marketId provider w) = Ok v /\
             (v = JNull \/ truthy v = true)) /\
  console_only w (snd (getOnChainCampaignId fetch marketId provider w)).
Proof.
  split; [|apply getOnChainCampaignId_quiet].
  rewrite getOnChainCampaignId_fst. eexists. split; [reflexivity|].
  assert (C : cached_value (localStorage w) marketId = JNull \/
              truthy (cached_value (localStorage w) marketId) = true).
  { unfold cached_value.
    destruct (localStorage w !! cache_key marketId) as [[|c s]|]; auto. }
  unfold resolved_value.
  destruct (fetch (market_url marketId)) as [r|e]; [|now left].
  destruct (ok r); [|exact C].
  destruct (json r) as [body|e]; [|now left].
  destruct (get_prop body (js "on_chain_id")) as [v|e]; [|now left].
  destruct (truthy v) eqn:Hv; [now right|exact C].
Qed.

(** X8. When the endpoint answers OK but the body cannot be used (reading it
    as JSON rejects, or it is [null]), the resolver logs the error and
    returns [null] without consulting the local cache. *)
Theorem getOnChainCampaignId_unreadable_body
    (fetch : jsstring -> Result Response) (marketId : jsstring)
    (provider : option Provider) (w : World) (r : Response) :
  fetch (market_url marketId) = Ok r -> ok r = true ->
  (exists e, json r = Throw e) \/ json r = Ok JNull ->
  fst (getOnChainCampaignId fetch marketId provider w) = Ok JNull /\
  error_logged (snd (getOnChainCampaignId fetch marketId provider w)).
Proof.
  intros Hr Hok Hbody. unfold getOnChainCampaignId. run. rewrite Hr, Hok.
  destruct Hbody as [[e ->]| ->]; cbn; (split; [reflexivity|]);
    eexists; apply last_snoc.
Qed.

Lemma getOnChainCampaignId_unreadable_body_witness :
  fst (getOnChainCampaignId
         (fun _ => Ok (mkResponse true (Throw (Error_ (js "Unexpected token <")))))
         (js "m1") None world_cached_7) = Ok JNull.
Proof.
  apply (getOnChainCampaignId_unreadable_body
           (fun _ => Ok (mkResponse true (Throw (Error_ (js "Unexpected token <")))))
           (js "m1") None world_cached_7
           (mkResponse true (Throw (Error_ (js "Unexpected token <"))))
           eq_refl eq_refl).
  left. eexists. reflexivity.
Defined.

(** X9. A remote identifier that is falsy for JavaScript (the number [0],
    an empty string, [null], [false], or no [on_chain_id] at all) is treated
    as absent: the answer comes from the local cache. *)
Theorem getOnChainCampaignId_falsy_remote
    (fetch : jsstring -> Result Response) (marketId : jsstring)
    (provider : option Provider) (w : World) (r : Response) (body v : jsval) :
  fetch (market_url marketId) = Ok r -> ok r = true -> json r = Ok body ->
  get_prop body (js "on_chain_id") = Ok v -> truthy v = false ->
  getOnChainCampaignId fetch marketId provider w =
  (Ok match localStorage w !! cache_key marketId with
      | Some (c :: s) => JStr (c :: s)
      | _ => JNull
      end, w).
Proof.
  intros Hr Hok Hbody Hv Hfalsy.
  unfold getOnChainCampaignId. cbv zeta. unfold try_catch at 1.
  unfold mbind at 1, M_bind at 1, await at 1. rewrite Hr, Hok.
  unfold mbind at 1, M_bind at 1, await at 1. rewrite Hbody.
  unfold mbind at 1, M_bind at 1, await at 1. rewrite Hv, Hfalsy.
  now rewrite fallback_run.
Qed.

Lemma getOnChainCampaignId_falsy_remote_witness :
  fst (getOnChainCampaignId
         (fun _ => Ok (mkResponse true (Ok (JObj [(js "on_chain_id", JNum 0)]))))
         (js "m1") None world_cached_7) = Ok (JStr (js "7")).
Proof.
  rewrite (getOnChainCampaignId_falsy_remote
             (fun _ => Ok (mkResponse true (Ok (JObj [(js "on_chain_id", JNum 0)]))))
             (js "m1") None world_cached_7
             (mkResponse true (Ok (JObj [(js "on_chain_id", JNum 0)])))
             (JObj [(js "on_chain_id", JNum 0)]) (JNum 0)
             eq_refl eq_refl eq_refl eq_refl eq_refl).
  cbn [fst world_cached_7 localStorage]. now rewrite lookup_singleton_eq.
Defined.

(** X10. [getOnChainIdFromSupabase] never throws and reads the session store
    under the key the resolver uses for its cache.  When both stores hold the
    same entries and the remote query answers non-OK, the two helpers agree,
    except that the session reader hands an empty string through where the
    resolver answers [null]. *)
Theorem getOnChainIdFromSupabase_agrees
    (sessionStorage : Result (gmap jsstring jsstring))
    (fetch : jsstring -> Result Response) (marketId : jsstring)
    (provider : option Provider) (w : World) :
  (exists stored, fst (getOnChainIdFromSupabase sessionStorage marketId w) = Ok stored) /\
  (forall r, sessionStorage = Ok (localStorage w) ->
     fetch (market_url marketId) = Ok r -> ok r = false ->
     fst (getOnChainIdFromSupabase sessionStorage marketId w) =
       Ok (localStorage w !! cache_key marketId) /\
     fst (getOnChainCampaignId fetch marketId provider w) =
       Ok match localStorage w !! cache_key marketId with
          | Some (c :: s) => JStr (c :: s)
          | _ => JNull
          end).
Proof.
  split.
  - unfold getOnChainIdFromSupabase. run.
    destruct sessionStorage; eexists; reflexivity.
  - intros r -> Hr Hok. split; [reflexivity|].
    rewrite getOnChainCampaignId_fst. unfold resolved_value.
    now rewrite Hr, Hok.
Qed.

Lemma getOnChainIdFromSupabase_agrees_witness :
  fst (getOnChainIdFromSupabase (Ok {[ cache_key (js "m1") := [] ]}) (js "m1")
         (mkWorld {[ cache_key (js "m1") := [] ]} [] [] [])) = Ok (Some []) /\
  fst (getOnChainCampaignId fetch_not_found (js "m1") None
         (mkWorld {[ cache_key (js "m1") := [] ]} [] [] [])) = Ok JNull.
Proof.
  destruct (proj2 (getOnChainIdFromSupabase_agrees
                     (Ok {[ cache_key (js "m1") := [] ]}) fetch_not_found (js "m1")
                     None (mkWorld {[ cache_key (js "m1") := [] ]} [] [] []))
              (mkResponse false (Ok (JObj []))) eq_refl eq_refl eq_refl)
    as [Hs Hr].
  rewrite Hs, Hr. cbn [localStorage]. now rewrite lookup_singleton_eq.
Defined.

(** ** Name resolution *)

Section NameFacts.

Lemma formatAddress_nonempty (address : jsstring) : Address.formatAddress address <> [].
Proof.
  rewrite formatAddress_eq. intros H. apply (f_equal length) in H.
  rewrite !length_app in H. simpl in H. lia.
Qed.

Lemma resolveNameOrFormatAddress_fst (address : jsstring)
    (provider : option NameProvider) (w : World) :
  fst (resolveNameOrFormatAddress address provider w) =
  Ok match resolved_name address provider with
     | Some ensName => ensName
     | None => Address.formatAddress address
     end.
Proof.
  unfold resolveNameOrFormatAddress, resolved_name. run.
  destruct provider as [p|]; [|reflexivity].
  destruct (getNetwork p) as [c|e]; [|reflexivity].
  destruct ((c =? 1) || (c =? 5)); [|reflexivity].
  destruct (lookupAddress p address) as [[[|x n]|]|e]; reflexivity.
Qed.

Lemma resolveNameOrFormatAddress_quiet (address : jsstring)
    (provider : option NameProvider) :
  quiet (resolveNameOrFormatAddress address provider).
Proof.
  unfold resolveNameOrFormatAddress. repeat quiet_step.
Qed.

End NameFacts.

(** X11. [resolveNameOrFormatAddress] never throws, always returns a
    non-empty string, and changes nothing but the console, whatever the
    provider does. *)
Theorem resolveNameOrFormatAddress_total (address : jsstring)
    (provider : option NameProvider) (w : World) :
  (exists s, fst (resolveNameOrFormatAddress address provider w) = Ok s /\ s <> []) /\
  console_only w (snd (resolveNameOrFormatAddress address provider w)).
Proof.
  split; [|apply resolveNameOrFormatAddress_quiet].
  rewrite resolveNameOrFormatAddress_fst. eexists. split; [reflexivity|].
  destruct (resolved_name address provider) as [n|] eqn:E;
    [|apply formatAddress_nonempty].
  unfold resolved_name in E.
  destruct provider as [p|]; [|discriminate].
  destruct (getNetwork p); [|discriminate].
  destruct ((_ =? 1) || (_ =? 5)); [|discriminate].
  destruct (lookupAddress p address) as [[[|x m]|]|]; try discriminate.
  now injection E as <-.
Qed.

(** X12. A result other than the shortened address is always an ENS name that
    the provider returned on Ethereum mainnet or Goerli; a non-empty name
    returned there is the result; and on any other chain the shortened
    address is returned whatever [lookupAddress] would answer. *)
Theorem resolveNameOrFormatAddress_ens (address : jsstring)
    (provider : option NameProvider) (w : World) :
  (forall s, fst (resolveNameOrFormatAddress address provider w) = Ok s ->
     s <> Address.formatAddress address ->
     exists p c, provider = Some p /\ getNetwork p = Ok c /\ (c = 1 \/ c = 5) /\
                 lookupAddress p address = Ok (Some s)) /\
  (forall p c x n, provider = Some p -> getNetwork p = Ok c -> c = 1 \/ c = 5 ->
     lookupAddress p address = Ok (Some (x :: n)) ->
     fst (resolveNameOrFormatAddress address provider w) = Ok (x :: n)) /\
  (forall p c, provider = Some p -> getNetwork p = Ok c -> c <> 1 -> c <> 5 ->
     fst (resolveNameOrFormatAddress address provider w) =
     Ok (Address.formatAddress address)).
Proof.
  rewrite resolveNameOrFormatAddress_fst. unfold resolved_name.
  split; [|split].
  - intros s Hs Hne.
    destruct provider as [p|]; [|now injection Hs as <-].
    destruct (getNetwork p) as [c|e] eqn:Hc; [|now injection Hs as <-].
    destruct ((c =? 1) || (c =? 5)) eqn:Hchain; [|now injection Hs as <-].
    destruct (lookupAddress p address) as [[[|x n]|]|e] eqn:Hl;
      try (now injection Hs as <-).
    injection Hs as <-. exists p, c.
    split; [reflexivity|]. split; [exact Hc|]. split; [|exact Hl].
    apply orb_true_iff in Hchain as [H|H]; apply Z.eqb_eq in H;
      [left|right]; exact H.
  - intros p c x n -> Hc Hchain Hl. rewrite Hc.
    replace ((c =? 1) || (c =? 5)) with true
      by (destruct Hchain as [-> | ->]; reflexivity).
    now rewrite Hl.
  - intros p c -> Hc H1 H5. rewrite Hc.
    apply Z.eqb_neq in H1, H5. now rewrite H1, H5.
Qed.

Lemma resolveNameOrFormatAddress_ens_witness :
  fst (resolveNameOrFormatAddress LEO_TOKEN_ADDRESS
         (Some (mkNameProvider (Ok 1) (fun _ => Ok (Some (js "leo.eth")))))
         empty_world) = Ok (js "leo.eth") /\
  fst (resolveNameOrFormatAddress LEO_TOKEN_ADDRESS
         (Some (mkNameProvider (Ok 137) (fun _ => Ok (Some (js "leo.eth")))))
         empty_world) = Ok (js "0xA1F0...1875").
Proof.
  split.
  - apply (proj1 (proj2 (resolveNameOrFormatAddress_ens LEO_TOKEN_ADDRESS
             (Some (mkNameProvider (Ok 1) (fun _ => Ok (Some (js "leo.eth")))))
             empty_world))
             (mkNameProvider (Ok 1) (fun _ => Ok (Some (js "leo.eth")))) 1
             _ _ eq_refl eq_refl (or_introl eq_refl) eq_refl).
  - apply (proj2 (proj2 (resolveNameOrFormatAddress_ens LEO_TOKEN_ADDRESS
             (Some (mkNameProvider (Ok 137) (fun _ => Ok (Some (js "leo.eth")))))
             empty_world))
             (mkNameProvider (Ok 137) (fun _ => Ok (Some (js "leo.eth")))) 137
             eq_refl eq_refl); discriminate.
Defined.

(** ** More on the campaign writer *)

Section WriterFacts.

Lemma first_campaign_created_skip (before after : list Log) (l : Log) :
  irrelevant_log l ->
  first_campaign_created (before ++ l :: after) =
  first_campaign_created (before ++ after).
Proof.
  intros Hl. induction before as [|b before IH]; cbn [app first_campaign_created].
  - destruct l as [e| |d]; try reflexivity.
    cbn in Hl. now rewrite decide_False by exact Hl.
  - destruct b as [e| |d]; try exact IH.
    destruct (decide (name d = js "CampaignCreated")); [reflexivity|exact IH].
Qed.

Lemma createCampaignOnChain_quiet (Date_now : float) (signer : Signer)
    (description : jsstring) (expiryHours : float) (gasLimit : option float) :
  quiet (createCampaignOnChain Date_now signer description expiryHours gasLimit).
Proof.
  unfold createCampaignOnChain, campaign_id_from_logs. cbv zeta.
  repeat quiet_step.
Qed.

End WriterFacts.

(** X13. A campaign whose end time, computed as the writer computes it, is
    not a valid date (beyond 8.64e15 milliseconds from the epoch, or not a
    number at all, as for [NaN] hours) is refused before anything is sent
    to the ledger: the writer throws "Invalid time value" whatever the
    contract would answer. *)
Theorem createCampaignOnChain_rejects_far_end_time (Date_now : float)
    (signer : Signer) (description : jsstring) (expiryHours : float)
    (gasLimit : option float) (contract : PredictionContract) (w : World) :
  getPredictionContract signer = Ok contract ->
  (abs (end_time Date_now expiryHours * 1000) <=? 8640000000000000)%float = false ->
  fst (createCampaignOnChain Date_now signer description expiryHours gasLimit w) =
  Throw (Error_ (js "Invalid time value")).
Proof.
  intros Hc Hfar. rewrite createCampaignOnChain_outcome.
  unfold creation_outcome, Date_toISOString. now rewrite Hc, Hfar.
Qed.

Lemma createCampaignOnChain_rejects_far_end_time_witness :
  fst (createCampaignOnChain 1700000000000 (ledger (Ok tx_with_event) (Ok 9))
         (js "BTC above 100k") 10000000000000 None empty_world) =
    Throw (Error_ (js "Invalid time value")) /\
  fst (createCampaignOnChain 1700000000000 (ledger (Ok tx_with_event) (Ok 9))
         (js "BTC above 100k") nan None empty_world) =
    Throw (Error_ (js "Invalid time value")).
Proof.
  split.
  - apply (createCampaignOnChain_rejects_far_end_time 1700000000000
             (ledger (Ok tx_with_event) (Ok 9)) (js "BTC above 100k")
             10000000000000 None
             (contract_of (Ok tx_with_event) (Ok 9)) empty_world eq_refl).
    vm_compute. reflexivity.
  - apply (createCampaignOnChain_rejects_far_end_time 1700000000000
             (ledger (Ok tx_with_event) (Ok 9)) (js "BTC above 100k") nan None
             (contract_of (Ok tx_with_event) (Ok 9)) empty_world eq_refl).
    vm_compute. reflexivity.
Defined.

(** X14. Log entries that are not a decodable [CampaignCreated] event
    (entries that [parseLog] rejects or does not know, and other events)
    never influence the identifier read from the logs, wherever they stand. *)
Theorem campaign_id_from_logs_skips (hash : jsstring) (before after : list Log)
    (l : Log) (w : World) :
  irrelevant_log l ->
  fst (campaign_id_from_logs (mkReceipt hash (before ++ l :: after)) w) =
  fst (campaign_id_from_logs (mkReceipt hash (before ++ after)) w).
Proof.
  intros Hl.
  destruct (campaign_id_from_logs_run (mkReceipt hash (before ++ l :: after)) w)
    as [w1 ->].
  destruct (campaign_id_from_logs_run (mkReceipt hash (before ++ after)) w)
    as [w2 ->].
  cbn [fst logs]. unfold logged_campaign_id.
  now rewrite first_campaign_created_skip.
Qed.

Lemma campaign_id_from_logs_skips_witness :
  fst (campaign_id_from_logs
         (mkReceipt (js "0xr")
            [Undecodable (Error_ (js "data out-of-bounds"));
             Decoded (mkDesc (js "CampaignCreated") [VUint 5])]) empty_world) =
  fst (campaign_id_from_logs
         (mkReceipt (js "0xr") [Decoded (mkDesc (js "CampaignCreated") [VUint 5])])
         empty_world).
Proof.
  apply (campaign_id_from_logs_skips (js "0xr") []
           [Decoded (mkDesc (js "CampaignCreated") [VUint 5])]
           (Undecodable (Error_ (js "data out-of-bounds"))) empty_world I).
Defined.

(** X16. [createCampaignOnChain] changes nothing but the console.  In
    particular it does not record the new identifier under the market's cache
    key: [getOnChainCampaignId] answers the same before and after a
    creation, successful or not. *)
Theorem createCampaignOnChain_leaves_cache (Date_now : float) (signer : Signer)
    (description : jsstring) (expiryHours : float) (gasLimit : option float) (w : World) :
  console_only w
    (snd (createCampaignOnChain Date_now signer description expiryHours gasLimit w)) /\
  (forall fetch marketId provider,
     fst (getOnChainCampaignId fetch marketId provider
            (snd (createCampaignOnChain Date_now signer description expiryHours
                    gasLimit w))) =
     fst (getOnChainCampaignId fetch marketId provider w)).
Proof.
  pose proof (createCampaignOnChain_quiet Date_now signer description expiryHours
                gasLimit w) as Hq.
  split; [exact Hq|]. intros fetch marketId provider.
  rewrite !getOnChainCampaignId_fst. destruct Hq as (-> & _). reflexivity.
Qed.

(** ** More on the pool reconciler *)

Section ReconcilerFacts.

Lemma updated_ids (marketId : jsstring) (u : PoolUpdate) (rows : list MarketRow) :
  map id (map (fun r => if decide (id r = marketId) then apply_update u r else r) rows)
  = map id rows.
Proof.
  rewrite map_map. apply map_ext. intros r.
  now destruct (decide (id r = marketId)).
Qed.

Lemma credit_commute (a b : float) (r : MarketRow) :
  credit no b (credit yes a r) = credit yes a (credit no b r).
Proof. reflexivity. Qed.

Lemma credited_table_commute (marketId : jsstring) (a b : float)
    (rows : list MarketRow) :
  credited_table marketId no b (credited_table marketId yes a rows) =
  credited_table marketId yes a (credited_table marketId no b rows).
Proof.
  unfold credited_table. rewrite !map_map. apply map_ext. intros r.
  destruct (decide (id r = marketId)) as [H|H].
  - rewrite !decide_True by (rewrite credit_id; exact H). apply credit_commute.
  - now rewrite !decide_False by exact H.
Qed.

End ReconcilerFacts.

(** X17. Whatever the store answers, [updateMarketPools] never adds, removes
    or renames a market, never touches [localStorage], only appends to the
    console, and leaves the recorded positions as they were or appends the
    one new record: positions are append-only. *)
Theorem updateMarketPools_invariants (supabase : Supabase) (marketId : jsstring)
    (position : Side) (amount : float) (w : World) :
  let w' := snd (updateMarketPools supabase marketId position amount w) in
  map id (prediction_markets w') = map id (prediction_markets w) /\
  localStorage w' = localStorage w /\
  (exists entries, console w' = console w ++ entries) /\
  (user_positions w' = user_positions w \/
   user_positions w' =
     user_positions w ++
     [mkPosition marketId (localStorage w !! js "walletAddress") position amount]).
Proof.
  unfold updateMarketPools, select_single, update_eq, insert_position. run.
  destruct (select_outcome supabase).
  2, 3: cbn; repeat split; [eexists; reflexivity|now left].
  destruct (rows_with_id marketId (prediction_markets w)) as [|r [|r' l]].
  1, 3: cbn; repeat split; [eexists; reflexivity|now left].
  cbn [error data].
  destruct (update_outcome supabase).
  2, 3: cbn; repeat split; [eexists; reflexivity|now left].
  cbn [error data].
  destruct (insert_outcome supabase);
    cbn [error data snd prediction_markets user_positions localStorage console logged];
    (split; [apply updated_ids|]); (split; [reflexivity|]);
    (split; [rewrite <- ?app_assoc; eexists; reflexivity|]);
    [now right|now left..].
Qed.

(** X18. Two successful predictions on the same market compose: the second
    call finds the row the first one wrote, the row ends up credited with
    both amounts in order, and both position records are appended in the
    order of the calls. *)
Theorem updateMarketPools_twice (supabase : Supabase) (marketId : jsstring)
    (p1 p2 : Side) (a1 a2 : float) (w : World) (row : MarketRow) :
  select_outcome supabase = Succeeds ->
  update_outcome supabase = Succeeds ->
  insert_outcome supabase = Succeeds ->
  rows_with_id marketId (prediction_markets w) = [row] ->
  exists w1 w2,
    updateMarketPools supabase marketId p1 a1 w = (Ok tt, w1) /\
    updateMarketPools supabase marketId p2 a2 w1 = (Ok tt, w2) /\
    rows_with_id marketId (prediction_markets w2) =
      [credit p2 a2 (credit p1 a1 row)] /\
    user_positions w2 =
      user_positions w ++
      [mkPosition marketId (localStorage w !! js "walletAddress") p1 a1;
       mkPosition marketId (localStorage w !! js "walletAddress") p2 a2].
Proof.
  intros Hs Hu Hi Hrow.
  destruct (updateMarketPools_all_ok supabase marketId p1 a1 w row Hs Hu Hi Hrow)
    as (w1 & Hrun1 & Ht1 & Hp1 & Hl1).
  assert (Hrow1 : rows_with_id marketId (prediction_markets w1) = [credit p1 a1 row]).
  { rewrite Ht1. now apply credited_table_row. }
  destruct (updateMarketPools_all_ok supabase marketId p2 a2 w1 _ Hs Hu Hi Hrow1)
    as (w2 & Hrun2 & Ht2 & Hp2 & Hl2).
  exists w1, w2. split; [exact Hrun1|]. split; [exact Hrun2|]. split.
  - rewrite Ht2. now apply credited_table_row.
  - rewrite Hp2, Hp1, Hl1, <- app_assoc. reflexivity.
Qed.

Lemma updateMarketPools_twice_witness :
  exists w1 w2,
    updateMarketPools store_up (js "m1") yes 3 world_market_10 = (Ok tt, w1) /\
    updateMarketPools store_up (js "m1") no 2 w1 = (Ok tt, w2) /\
    rows_with_id (js "m1") (prediction_markets w2) = [mkMarket (js "m1") 13 6].
Proof.
  destruct (updateMarketPools_twice store_up (js "m1") yes no 3 2 world_market_10
              (mkMarket (js "m1") 10 4) eq_refl eq_refl eq_refl eq_refl)
    as (w1 & w2 & H1 & H2 & Hrow & _).
  exists w1, w2. split; [exact H1|]. split; [exact H2|]. exact Hrow.
Defined.

(** X19. Successful predictions on opposite sides commute on the pools: a
    "yes" of [a] followed by a "no" of [b] leaves the market table exactly as
    the "no" followed by the "yes" does. *)
Theorem updateMarketPools_sides_commute (supabase : Supabase) (marketId : jsstring)
    (a b : float) (w : World) (row : MarketRow) :
  select_outcome supabase = Succeeds ->
  update_outcome supabase = Succeeds ->
  insert_outcome supabase = Succeeds ->
  rows_with_id marketId (prediction_markets w) = [row] ->
  prediction_markets
    (snd (updateMarketPools supabase marketId no b
            (snd (updateMarketPools supabase marketId yes a w)))) =
  prediction_markets
    (snd (updateMarketPools supabase marketId yes a
            (snd (updateMarketPools supabase marketId no b w)))).
Proof.
  intros Hs Hu Hi Hrow.
  destruct (updateMarketPools_all_ok supabase marketId yes a w row Hs Hu Hi Hrow)
    as (wy & Hry & Hty & _).
  destruct (updateMarketPools_all_ok supabase marketId no b w row Hs Hu Hi Hrow)
    as (wn & Hrn & Htn & _).
  rewrite Hry, Hrn. cbn [snd].
  assert (Hrowy : rows_with_id marketId (prediction_markets wy) = [credit yes a row])
    by (rewrite Hty; now apply credited_table_row).
  assert (Hrown : rows_with_id marketId (prediction_markets wn) = [credit no b row])
    by (rewrite Htn; now apply credited_table_row).
  destruct (updateMarketPools_all_ok supabase marketId no b wy _ Hs Hu Hi Hrowy)
    as (wyn & Hryn & Htyn & _).
  destruct (updateMarketPools_all_ok supabase marketId yes a wn _ Hs Hu Hi Hrown)
    as (wny & Hrny & Htny & _).
  rewrite Hryn, Hrny. cbn [snd]. rewrite Htyn, Htny, Hty, Htn.
  apply credited_table_commute.
Qed.

Lemma updateMarketPools_sides_commute_witness :
  prediction_markets
    (snd (updateMarketPools store_up (js "m1") no 2
            (snd (updateMarketPools store_up (js "m1") yes 3 world_market_10)))) =
  prediction_markets
    (snd (updateMarketPools store_up (js "m1") yes 3
            (snd (updateMarketPools store_up (js "m1") no 2 world_market_10)))).
Proof.
  apply (updateMarketPools_sides_commute store_up (js "m1") 3 2 world_market_10
           (mkMarket (js "m1") 10 4) eq_refl eq_refl eq_refl eq_refl).
Defined.
